(** * JumpLab: jump metrics, playback control and local stores

    A shallow embedding of [src/utils/physics.ts] and of the event handlers
    of [src/App.tsx], with the properties of the specification proved about
    them.

    Modelling conventions.
    - A JavaScript [number] is a rational ([Q]); [NaN] and the infinities
      are not represented.  Equality of numbers is [Qeq] (written [==]).
      The handlers of [App.tsx] and [calculateJumpHeight] compute on the
      rationals as written.  [formatTime], whose digits depend on how
      binary64 rounds, rounds its quotient and its product (module
      [Double]) and is stated for the rationals that are doubles.  Module
      [Binary64] evaluates the numeric code on the floating-point numbers
      of the machine, for reference values and for the inputs on which
      rounding makes the difference.
    - A JavaScript string is the [string] of its UTF-8 encoding.
    - [Math.random] and [Date.now] are inputs of the handlers that call them
      (the fresh identifier and the clock reading are arguments).
    - React state is one record, [AppState]; a handler is a function from
      the state before the event to the state after it.  The host objects a
      handler touches ([videoRef.current], [localStorage], [alert]) are
      fields of that record.  The video element is the host's: what it does
      on its own (playback, loading, ending) enters as an event.
    - Left out: [shareResult], which assigns no state of [App].  The drag
      position of a [DraggableLine] is local to the component (module
      [DraggableLine]) and is never written back to [lines]. *)

From Stdlib Require Import ZArith QArith Qround Qminmax Qabs Qpower Lqa Lia.
From Stdlib Require Import Ascii String DecimalString DecimalZ Floats Uint63.
From stdpp Require Import base decidable option list strings gmap sorting.

(* Decimal literals in [float_scope] denote the nearest double, as they do
   in JavaScript. *)
#[global] Set Warnings "-inexact-float".

(** ** JavaScript primitives used by the sources *)

Module JS.

Local Open Scope Q_scope.

(** [Math.pow(x, 2)]. *)
Definition pow (x : Q) (n : Z) : Q := x ^ n.

(** [Math.floor]. *)
Definition floor (x : Q) : Z := Qfloor x.

(** Rounding toward zero, the quotient that [%] uses. *)
Definition trunc (x : Q) : Z :=
  if Qle_bool 0 x then Qfloor x else Qceiling x.

(** [x % y] on numbers: the remainder has the sign of the dividend.
    ([y] is a non-zero literal at every use in the sources.) *)
Definition rem (x y : Q) : Q := x - y * inject_Z (trunc (x / y)).

(** [Math.max(a, b)] and [Math.min(a, b)]. *)
Definition max (a b : Q) : Q := Qmax a b.
Definition min (a b : Q) : Q := Qmin a b.

(** [n.toString()] for an integer-valued number: its decimal digits, with
    a leading minus sign below zero.  (From 10^21 on JavaScript prints in
    exponent notation; counts of minutes do not get there.) *)
Definition toString (n : Z) : string :=
  NilEmpty.string_of_int (Z.to_int n).

Fixpoint repeat_char (c : ascii) (k : nat) : string :=
  match k with
  | O => EmptyString
  | S k' => String c (repeat_char c k')
  end.

(** [s.padStart(targetLength, c)] for a one-character filler [c]. *)
Definition padStart (targetLength : nat) (c : ascii) (s : string) : string :=
  (repeat_char c (targetLength - String.length s) ++ s)%string.

(** The UTF-8 encoding of a code point. *)
Definition utf8 (cp : N) : string :=
  let lead (marker n : N) : ascii := ascii_of_N (marker + n) in
  let cont (n : N) : ascii := ascii_of_N (0x80 + n mod 64) in
  if (cp <? 0x80)%N then
    String (ascii_of_N cp) EmptyString
  else if (cp <? 0x800)%N then
    String (lead 0xC0%N (cp / 64)%N) (String (cont cp) EmptyString)
  else if (cp <? 0x10000)%N then
    String (lead 0xE0%N (cp / 4096)%N)
      (String (cont (cp / 64)%N) (String (cont cp) EmptyString))
  else
    String (lead 0xF0%N (cp / 262144)%N)
      (String (cont (cp / 4096)%N)
         (String (cont (cp / 64)%N) (String (cont cp) EmptyString))).

(** White space in the sense of [String.prototype.trim]: the WhiteSpace
    and LineTerminator code points of ECMAScript, that is TAB, LF, VT, FF,
    CR, SPACE, NO-BREAK SPACE, OGHAM SPACE MARK, EN QUAD to HAIR SPACE, LINE
    and PARAGRAPH SEPARATOR, NARROW NO-BREAK SPACE, MEDIUM MATHEMATICAL
    SPACE, IDEOGRAPHIC SPACE and the byte order mark. *)
Definition WHITE_SPACE : list string :=
  utf8 <$>
    [0x9; 0xA; 0xB; 0xC; 0xD; 0x20; 0xA0; 0x1680;
     0x2000; 0x2001; 0x2002; 0x2003; 0x2004; 0x2005; 0x2006; 0x2007;
     0x2008; 0x2009; 0x200A; 0x2028; 0x2029; 0x202F; 0x205F; 0x3000;
     0xFEFF]%N.

(** [w] is (the encoding of) one white space character. *)
Definition isWhiteSpace (w : string) : bool :=
  existsb (String.eqb w) WHITE_SPACE.

(** [s.trimStart()]: white space characters, of one, two or three bytes,
    are dropped while [s] starts with one. *)
Fixpoint trimStart (s : string) : string :=
  match s with
  | EmptyString => EmptyString
  | String a s1 =>
      if isWhiteSpace (String a EmptyString) then trimStart s1 else
      match s1 with
      | EmptyString => s
      | String b s2 =>
          if isWhiteSpace (String a (String b EmptyString)) then trimStart s2
          else
          match s2 with
          | EmptyString => s
          | String c s3 =>
              if isWhiteSpace (String a (String b (String c EmptyString)))
              then trimStart s3 else s
          end
      end
  end.

(** Truthiness of a string: [!s] holds exactly for the empty string. *)
Definition falsy (s : string) : bool :=
  match s with EmptyString => true | _ => false end.

(** [s.trimEnd()]: the string is cut where its trailing white space
    starts, that is, at the first place from which on all is white
    space. *)
Fixpoint trimEnd (s : string) : string :=
  match s with
  | EmptyString => EmptyString
  | String a s1 =>
      if falsy (trimStart s) then EmptyString else String a (trimEnd s1)
  end.

(** [s.trim()]. *)
Definition trim (s : string) : string := trimEnd (trimStart s).

End JS.

(** ** Rounding to binary64

    The doubles are the rationals [m * 2^e] with [|m| < 2^53] and
    [e >= -1074].  An arithmetic operation of JavaScript yields the double
    nearest to its exact result, the one with the even significand of two
    equally near.  (Results of magnitude 2^1024 and more, which binary64
    turns into an infinity, are not represented.) *)

Module Double.

Local Open Scope Q_scope.

(** The binary exponent of a positive number: the [e] with
    [2^e <= x < 2^(e+1)]. *)
Definition exponent (x : Q) : Z :=
  let e := (Z.log2 (Qnum x) - Z.log2 (Z.pos (Qden x)))%Z in
  if Qle_bool (2 ^ e) x then e else (e - 1)%Z.

(** The spacing of the doubles at [x]: 53 significant bits from 2^-1022
    on, and the spacing 2^-1074 of the subnormal numbers below. *)
Definition ulp (x : Q) : Q :=
  2 ^ (Z.max (exponent (Qabs x)) (-1022) - 52).

(** The nearest integer, the even one of two equally near. *)
Definition nearestEven (x : Q) : Z :=
  let f := Qfloor x in
  match Qcompare (x - inject_Z f) (1 # 2) with
  | Lt => f
  | Gt => (f + 1)%Z
  | Eq => if Z.even f then f else (f + 1)%Z
  end.

(** The double nearest to [x]. *)
Definition round (x : Q) : Q := inject_Z (nearestEven (x / ulp x)) * ulp x.

Definition isDouble (x : Q) : Prop := round x == x.

(** [a * b] and [a / b] on numbers. *)
Definition mul (a b : Q) : Q := round (a * b).
Definition div (a b : Q) : Q := round (a / b).

End Double.

(** ** [src/utils/physics.ts] *)

Section Physics.

Local Open Scope Q_scope.

Definition G : Q := 980665 # 100000.

Definition calculateJumpHeight (flightTimeSeconds : Q) : Q :=
  let heightMeters := (G * JS.pow flightTimeSeconds 2) / 8 in
  heightMeters * 100.

(** The quotient by 60 and the product with 1000 are rounded to binary64;
    the remainders [seconds % 60] and [seconds % 1] of a double are doubles,
    so they are exact, and so is [Math.floor]. *)
Definition formatTime (seconds : Q) : string :=
  let m := JS.floor (Double.div seconds 60) in
  let s := JS.floor (JS.rem seconds 60) in
  let ms := JS.floor (Double.mul (JS.rem seconds 1) 1000) in
  (JS.padStart 2 "0" (JS.toString m) ++ ":" ++
   JS.padStart 2 "0" (JS.toString s) ++ "." ++
   JS.padStart 3 "0" (JS.toString ms))%string.

End Physics.

(** The numeric code evaluated in IEEE binary64, the arithmetic of the
    JavaScript engine, on the floating-point numbers of the machine: the
    two functions of [physics.ts] and the numbers of a saved record.
    [G] is the double nearest to 9.80665, and [Math.pow(t, 2)] is taken as
    the product [t * t] rounded once. *)
Module Binary64.

Local Open Scope float_scope.

Definition G : float := 0x1.39d013a92a305p+3.

Definition calculateJumpHeight (flightTimeSeconds : float) : float :=
  let heightMeters := (G * (flightTimeSeconds * flightTimeSeconds)) / 8 in
  heightMeters * 100.

(** The rational that a finite double denotes. *)
Definition toQ (x : float) : option Q :=
  match Prim2SF x with
  | S754_zero _ => Some 0%Q
  | S754_finite s m e =>
      Some ((if s then - inject_Z (Zpos m) else inject_Z (Zpos m)) * 2 ^ e)%Q
  | _ => None
  end.

(** The double of an integer (exact below 2^53). *)
Definition ofZ (z : Z) : float :=
  let a := PrimFloat.of_uint63 (Uint63.of_Z (Z.abs z)) in
  if (z <? 0)%Z then - a else a.

(** [Math.floor(x)]; the result is an integer-valued double. *)
Definition floor (x : float) : option Z := JS.floor <$> toQ x.

(** [x % 60]: the remainder of doubles is exact, so it is the remainder of
    the rationals they denote. *)
Definition rem60 (x : float) : option Q := (λ q, JS.rem q 60) <$> toQ x.

(** [x % 1]: [x] less its integer part, a subtraction that binary64
    performs without rounding. *)
Definition rem1 (x : float) : option float :=
  (λ q, x - ofZ (JS.trunc q)) <$> toQ x.

(** [formatTime] on a finite double ([None] stands for the rendering of
    [NaN] and the infinities). *)
Definition formatTime (seconds : float) : option string :=
  m ← floor (seconds / 60);
  s ← JS.floor <$> rem60 seconds;
  r ← rem1 seconds;
  ms ← floor (r * 1000);
  Some (JS.padStart 2 "0" (JS.toString m) ++ ":" ++
        JS.padStart 2 "0" (JS.toString s) ++ "." ++
        JS.padStart 3 "0" (JS.toString ms))%string.

(** [Math.max(a, b)] and [Math.min(a, b)]: [NaN] if either is [NaN]. *)
Definition max (a b : float) : float :=
  if a <? b then b else if b <=? a then a else nan.
Definition min (a b : float) : float :=
  if a <? b then a else if b <=? a then b else nan.


(** [flightTime] and [jumpHeight] with both marks set: *)
Definition flightTime (takeOffTime landingTime : float) : float :=
  max 0 (landingTime - takeOffTime).

Definition jumpHeight (flightTime : float) : float :=
  if 0 <? flightTime then calculateJumpHeight flightTime else 0.


End Binary64.

(** Doubles on which the rounding of module [Double] is compared with the
    arithmetic of the machine: around the fields of [formatTime], at the
    ends of the binades, and among the subnormal numbers. *)
Definition sampleDoubles : list float :=
  [0; 0.001; 0.1; 0.3; 0.57; 0.9985; 0.999; 0.9999999999999999; 1.001; 4.35;
   59.9995; 59.99999999999999; 61.9996; 119.999; 511.9999999999999;
   3599.9999999999995; 5999.999999999999; 6000; 86399.9995; 1234567.891;
   9007199254740991; 1e-320; 2.2250738585072014e-308; 1e-200]%float.

(** At the double [x], [formatTime] and its rounded quotient and product
    are what the machine computes. *)
Definition agreesAt (x : float) : bool :=
  match Binary64.toQ x, Binary64.toQ (x / 60), Binary64.rem1 x with
  | Some q, Some quotient, Some r =>
      match Binary64.toQ r, Binary64.toQ (r * 1000) with
      | Some fraction, Some product =>
          Qeq_bool (Double.round q) q
          && Qeq_bool (Double.div q 60) quotient
          && Qeq_bool (JS.rem q 1) fraction
          && Qeq_bool (Double.mul (JS.rem q 1) 1000) product
          && bool_decide (Some (formatTime q) = Binary64.formatTime x)
      | _, _ => false
      end
  | _, _, _ => false
  end.

(** ** [src/types.ts] *)

Module UserProfile.
Record t := mk { id : string; name : string; createdAt : Z }.
End UserProfile.

Module JumpRecord.
Record t := mk {
  id : string;
  userId : string;
  date : Z;
  heightCm : Q;
  flightTime : Q;
  note : option string
}.
End JumpRecord.

Module ReferenceLineData.
Record t := mk { id : string; topPercent : Q; color : string }.
End ReferenceLineData.

Module VideoMarker.
Record t := mk { id : string; time : Q; label : string }.
End VideoMarker.

(** ** Host objects *)

(** The [<video>] element behind [videoRef.current].  The element belongs
    to the host; the handlers read [currentTime] and [duration], assign
    [currentTime] and [playbackRate], and call [play] and [pause]. *)
Module HTMLVideoElement.
Record t := mk {
  currentTime : Q;
  duration : Q;
  paused : bool;
  playbackRate : Q
}.

Definition pause (v : t) : t :=
  mk (currentTime v) (duration v) true (playbackRate v).

Definition play (v : t) : t :=
  mk (currentTime v) (duration v) false (playbackRate v).

(** [v.currentTime = time]: the host seeks, and keeps the new position
    within the extent of the media. *)
Definition assignCurrentTime (time : Q) (v : t) : t :=
  mk (JS.min (JS.max 0 time) (duration v)) (duration v) (paused v)
     (playbackRate v).

Definition assignPlaybackRate (rate : Q) (v : t) : t :=
  mk (currentTime v) (duration v) (paused v) rate.
End HTMLVideoElement.

(** What [JSON.stringify] stores under a key of [localStorage]: the list
    that was serialised, which [JSON.parse] gives back.  The application
    writes users under one key and history under the other; a key holding
    the other kind of list is read as an absent key. *)
Inductive Stored :=
| StoredUsers (us : list UserProfile.t)
| StoredHistory (h : list JumpRecord.t).

Definition KEY_USERS : string := "jumplab_users".
Definition KEY_HISTORY : string := "jumplab_history".

(** ** The state of [App] *)

Record AppState := mkAppState {
  videoSrc : option string;
  isPlaying : bool;
  currentTime : Q;
  duration : Q;
  playbackRate : Q;
  fps : Q;
  containerHeight : Q;
  takeOffTime : option Q;
  landingTime : option Q;
  lines : list ReferenceLineData.t;
  markers : list VideoMarker.t;
  users : list UserProfile.t;
  currentUser : option UserProfile.t;
  jumpHistory : list JumpRecord.t;
  isUserModalOpen : bool;
  newUserName : string;
  videoRef : option HTMLVideoElement.t;
  localStorage : gmap string Stored;
  alerts : list string
}.

Definition setVideoSrc (v : option string) (st : AppState) : AppState :=
  {| videoSrc := v; isPlaying := isPlaying st; currentTime := currentTime st;
     duration := duration st; playbackRate := playbackRate st; fps := fps st;
     containerHeight := containerHeight st; takeOffTime := takeOffTime st;
     landingTime := landingTime st; lines := lines st; markers := markers st;
     users := users st; currentUser := currentUser st;
     jumpHistory := jumpHistory st; isUserModalOpen := isUserModalOpen st;
     newUserName := newUserName st; videoRef := videoRef st;
     localStorage := localStorage st; alerts := alerts st |}.

Definition setIsPlaying (v : bool) (st : AppState) : AppState :=
  {| videoSrc := videoSrc st; isPlaying := v; currentTime := currentTime st;
     duration := duration st; playbackRate := playbackRate st; fps := fps st;
     containerHeight := containerHeight st; takeOffTime := takeOffTime st;
     landingTime := landingTime st; lines := lines st; markers := markers st;
     users := users st; currentUser := currentUser st;
     jumpHistory := jumpHistory st; isUserModalOpen := isUserModalOpen st;
     newUserName := newUserName st; videoRef := videoRef st;
     localStorage := localStorage st; alerts := alerts st |}.

Definition setCurrentTime (v : Q) (st : AppState) : AppState :=
  {| videoSrc := videoSrc st; isPlaying := isPlaying st; currentTime := v;
     duration := duration st; playbackRate := playbackRate st; fps := fps st;
     containerHeight := containerHeight st; takeOffTime := takeOffTime st;
     landingTime := landingTime st; lines := lines st; markers := markers st;
     users := users st; currentUser := currentUser st;
     jumpHistory := jumpHistory st; isUserModalOpen := isUserModalOpen st;
     newUserName := newUserName st; videoRef := videoRef st;
     localStorage := localStorage st; alerts := alerts st |}.

Definition setDuration (v : Q) (st : AppState) : AppState :=
  {| videoSrc := videoSrc st; isPlaying := isPlaying st;
     currentTime := currentTime st; duration := v;
     playbackRate := playbackRate st; fps := fps st;
     containerHeight := containerHeight st; takeOffTime := takeOffTime st;
     landingTime := landingTime st; lines := lines st; markers := markers st;
     users := users st; currentUser := currentUser st;
     jumpHistory := jumpHistory st; isUserModalOpen := isUserModalOpen st;
     newUserName := newUserName st; videoRef := videoRef st;
     localStorage := localStorage st; alerts := alerts st |}.

Definition setPlaybackRate (v : Q) (st : AppState) : AppState :=
  {| videoSrc := videoSrc st; isPlaying := isPlaying st;
     currentTime := currentTime st; duration := duration st;
     playbackRate := v; fps := fps st; containerHeight := containerHeight st;
     takeOffTime := takeOffTime st; landingTime := landingTime st;
     lines := lines st; markers := markers st; users := users st;
     currentUser := currentUser st; jumpHistory := jumpHistory st;
     isUserModalOpen := isUserModalOpen st; newUserName := newUserName st;
     videoRef := videoRef st; localStorage := localStorage st;
     alerts := alerts st |}.

Definition setFps (v : Q) (st : AppState) : AppState :=
  {| videoSrc := videoSrc st; isPlaying := isPlaying st;
     currentTime := currentTime st; duration := duration st;
     playbackRate := playbackRate st; fps := v;
     containerHeight := containerHeight st; takeOffTime := takeOffTime st;
     landingTime := landingTime st; lines := lines st; markers := markers st;
     users := users st; currentUser := currentUser st;
     jumpHistory := jumpHistory st; isUserModalOpen := isUserModalOpen st;
     newUserName := newUserName st; videoRef := videoRef st;
     localStorage := localStorage st; alerts := alerts st |}.

Definition setContainerHeight (v : Q) (st : AppState) : AppState :=
  {| videoSrc := videoSrc st; isPlaying := isPlaying st;
     currentTime := currentTime st; duration := duration st;
     playbackRate := playbackRate st; fps := fps st; containerHeight := v;
     takeOffTime := takeOffTime st; landingTime := landingTime st;
     lines := lines st; markers := markers st; users := users st;
     currentUser := currentUser st; jumpHistory := jumpHistory st;
     isUserModalOpen := isUserModalOpen st; newUserName := newUserName st;
     videoRef := videoRef st; localStorage := localStorage st;
     alerts := alerts st |}.

Definition setTakeOffTime (v : option Q) (st : AppState) : AppState :=
  {| videoSrc := videoSrc st; isPlaying := isPlaying st;
     currentTime := currentTime st; duration := duration st;
     playbackRate := playbackRate st; fps := fps st;
     containerHeight := containerHeight st; takeOffTime := v;
     landingTime := landingTime st; lines := lines st; markers := markers st;
     users := users st; currentUser := currentUser st;
     jumpHistory := jumpHistory st; isUserModalOpen := isUserModalOpen st;
     newUserName := newUserName st; videoRef := videoRef st;
     localStorage := localStorage st; alerts := alerts st |}.

Definition setLandingTime (v : option Q) (st : AppState) : AppState :=
  {| videoSrc := videoSrc st; isPlaying := isPlaying st;
     currentTime := currentTime st; duration := duration st;
     playbackRate := playbackRate st; fps := fps st;
     containerHeight := containerHeight st; takeOffTime := takeOffTime st;
     landingTime := v; lines := lines st; markers := markers st;
     users := users st; currentUser := currentUser st;
     jumpHistory := jumpHistory st; isUserModalOpen := isUserModalOpen st;
     newUserName := newUserName st; videoRef := videoRef st;
     localStorage := localStorage st; alerts := alerts st |}.

Definition setLines (v : list ReferenceLineData.t) (st : AppState) : AppState :=
  {| videoSrc := videoSrc st; isPlaying := isPlaying st;
     currentTime := currentTime st; duration := duration st;
     playbackRate := playbackRate st; fps := fps st;
     containerHeight := containerHeight st; takeOffTime := takeOffTime st;
     landingTime := landingTime st; lines := v; markers := markers st;
     users := users st; currentUser := currentUser st;
     jumpHistory := jumpHistory st; isUserModalOpen := isUserModalOpen st;
     newUserName := newUserName st; videoRef := videoRef st;
     localStorage := localStorage st; alerts := alerts st |}.

Definition setMarkers (v : list VideoMarker.t) (st : AppState) : AppState :=
  {| videoSrc := videoSrc st; isPlaying := isPlaying st;
     currentTime := currentTime st; duration := duration st;
     playbackRate := playbackRate st; fps := fps st;
     containerHeight := containerHeight st; takeOffTime := takeOffTime st;
     landingTime := landingTime st; lines := lines st; markers := v;
     users := users st; currentUser := currentUser st;
     jumpHistory := jumpHistory st; isUserModalOpen := isUserModalOpen st;
     newUserName := newUserName st; videoRef := videoRef st;
     localStorage := localStorage st; alerts := alerts st |}.

Definition setUsers (v : list UserProfile.t) (st : AppState) : AppState :=
  {| videoSrc := videoSrc st; isPlaying := isPlaying st;
     currentTime := currentTime st; duration := duration st;
     playbackRate := playbackRate st; fps := fps st;
     containerHeight := containerHeight st; takeOffTime := takeOffTime st;
     landingTime := landingTime st; lines := lines st; markers := markers st;
     users := v; currentUser := currentUser st;
     jumpHistory := jumpHistory st; isUserModalOpen := isUserModalOpen st;
     newUserName := newUserName st; videoRef := videoRef st;
     localStorage := localStorage st; alerts := alerts st |}.

Definition setCurrentUser (v : option UserProfile.t) (st : AppState) : AppState :=
  {| videoSrc := videoSrc st; isPlaying := isPlaying st;
     currentTime := currentTime st; duration := duration st;
     playbackRate := playbackRate st; fps := fps st;
     containerHeight := containerHeight st; takeOffTime := takeOffTime st;
     landingTime := landingTime st; lines := lines st; markers := markers st;
     users := users st; currentUser := v; jumpHistory := jumpHistory st;
     isUserModalOpen := isUserModalOpen st; newUserName := newUserName st;
     videoRef := videoRef st; localStorage := localStorage st;
     alerts := alerts st |}.

Definition setJumpHistory (v : list JumpRecord.t) (st : AppState) : AppState :=
  {| videoSrc := videoSrc st; isPlaying := isPlaying st;
     currentTime := currentTime st; duration := duration st;
     playbackRate := playbackRate st; fps := fps st;
     containerHeight := containerHeight st; takeOffTime := takeOffTime st;
     landingTime := landingTime st; lines := lines st; markers := markers st;
     users := users st; currentUser := currentUser st; jumpHistory := v;
     isUserModalOpen := isUserModalOpen st; newUserName := newUserName st;
     videoRef := videoRef st; localStorage := localStorage st;
     alerts := alerts st |}.

Definition setIsUserModalOpen (v : bool) (st : AppState) : AppState :=
  {| videoSrc := videoSrc st; isPlaying := isPlaying st;
     currentTime := currentTime st; duration := duration st;
     playbackRate := playbackRate st; fps := fps st;
     containerHeight := containerHeight st; takeOffTime := takeOffTime st;
     landingTime := landingTime st; lines := lines st; markers := markers st;
     users := users st; currentUser := currentUser st;
     jumpHistory := jumpHistory st; isUserModalOpen := v;
     newUserName := newUserName st; videoRef := videoRef st;
     localStorage := localStorage st; alerts := alerts st |}.

Definition setNewUserName (v : string) (st : AppState) : AppState :=
  {| videoSrc := videoSrc st; isPlaying := isPlaying st;
     currentTime := currentTime st; duration := duration st;
     playbackRate := playbackRate st; fps := fps st;
     containerHeight := containerHeight st; takeOffTime := takeOffTime st;
     landingTime := landingTime st; lines := lines st; markers := markers st;
     users := users st; currentUser := currentUser st;
     jumpHistory := jumpHistory st; isUserModalOpen := isUserModalOpen st;
     newUserName := v; videoRef := videoRef st;
     localStorage := localStorage st; alerts := alerts st |}.

Definition setVideoRef (v : option HTMLVideoElement.t) (st : AppState) : AppState :=
  {| videoSrc := videoSrc st; isPlaying := isPlaying st;
     currentTime := currentTime st; duration := duration st;
     playbackRate := playbackRate st; fps := fps st;
     containerHeight := containerHeight st; takeOffTime := takeOffTime st;
     landingTime := landingTime st; lines := lines st; markers := markers st;
     users := users st; currentUser := currentUser st;
     jumpHistory := jumpHistory st; isUserModalOpen := isUserModalOpen st;
     newUserName := newUserName st; videoRef := v;
     localStorage := localStorage st; alerts := alerts st |}.

Definition setLocalStorage (v : gmap string Stored) (st : AppState) : AppState :=
  {| videoSrc := videoSrc st; isPlaying := isPlaying st;
     currentTime := currentTime st; duration := duration st;
     playbackRate := playbackRate st; fps := fps st;
     containerHeight := containerHeight st; takeOffTime := takeOffTime st;
     landingTime := landingTime st; lines := lines st; markers := markers st;
     users := users st; currentUser := currentUser st;
     jumpHistory := jumpHistory st; isUserModalOpen := isUserModalOpen st;
     newUserName := newUserName st; videoRef := videoRef st;
     localStorage := v; alerts := alerts st |}.

Definition setAlerts (v : list string) (st : AppState) : AppState :=
  {| videoSrc := videoSrc st; isPlaying := isPlaying st;
     currentTime := currentTime st; duration := duration st;
     playbackRate := playbackRate st; fps := fps st;
     containerHeight := containerHeight st; takeOffTime := takeOffTime st;
     landingTime := landingTime st; lines := lines st; markers := markers st;
     users := users st; currentUser := currentUser st;
     jumpHistory := jumpHistory st; isUserModalOpen := isUserModalOpen st;
     newUserName := newUserName st; videoRef := videoRef st;
     localStorage := localStorage st; alerts := v |}.

(** [alert(msg)]: the message joins the log of notifications shown. *)
Definition alert (msg : string) (st : AppState) : AppState :=
  setAlerts (msg :: alerts st) st.

(** [localStorage.setItem(key, JSON.stringify(value))]. *)
Definition setItem (key : string) (value : Stored) (st : AppState) : AppState :=
  setLocalStorage (<[key := value]> (localStorage st)) st.

(** ** [src/App.tsx]: initialisation *)

Definition INITIAL_LINES : list ReferenceLineData.t :=
  [ReferenceLineData.mk "default" 50 "white"].

(** The state of the first render: the [useState] initial values, no
    element behind the ref yet, and the host's storage as found. *)
Definition initialState (storage : gmap string Stored) : AppState :=
  {| videoSrc := None; isPlaying := false; currentTime := 0; duration := 0;
     playbackRate := 1; fps := 60; containerHeight := 0;
     takeOffTime := None; landingTime := None; lines := INITIAL_LINES;
     markers := []; users := []; currentUser := None; jumpHistory := [];
     isUserModalOpen := false; newUserName := ""; videoRef := None;
     localStorage := storage; alerts := [] |}.

(** The mount effect.  [guestId] and [now] are what [generateId()] and
    [Date.now()] return if the guest profile has to be created. *)
Definition initialize (guestId : string) (now : Z) (st : AppState) : AppState :=
  let st1 :=
    match localStorage st !! KEY_USERS with
    | Some (StoredUsers parsedUsers) =>
        let st' := setUsers parsedUsers st in
        match parsedUsers with
        | u :: _ => setCurrentUser (Some u) st'
        | [] => st'
        end
    | _ =>
        let guest := UserProfile.mk guestId "Guest" now in
        setItem KEY_USERS (StoredUsers [guest])
          (setCurrentUser (Some guest) (setUsers [guest] st))
    end in
  match localStorage st1 !! KEY_HISTORY with
  | Some (StoredHistory h) => setJumpHistory h st1
  | _ => st1
  end.

(** ** [src/App.tsx]: handlers *)

(** [file] is the object URL of the chosen file, if one was chosen. *)
Definition handleFileUpload (file : option string) (st : AppState) : AppState :=
  match file with
  | Some url =>
      setCurrentTime 0
        (setIsPlaying false
           (setMarkers []
              (setLandingTime None
                 (setTakeOffTime None (setVideoSrc (Some url) st)))))
  | None => st
  end.

Definition togglePlay (st : AppState) : AppState :=
  match videoRef st with
  | Some v =>
      let v' := if isPlaying st then HTMLVideoElement.pause v
                else HTMLVideoElement.play v in
      setIsPlaying (negb (isPlaying st)) (setVideoRef (Some v') st)
  | None => st
  end.

Definition handleTimeUpdate (st : AppState) : AppState :=
  match videoRef st with
  | Some v => setCurrentTime (HTMLVideoElement.currentTime v) st
  | None => st
  end.

Definition handleLoadedMetadata (st : AppState) : AppState :=
  match videoRef st with
  | Some v => setDuration (HTMLVideoElement.duration v) st
  | None => st
  end.

Definition handlePlaybackRateChange (rate : Q) (st : AppState) : AppState :=
  let st' := setPlaybackRate rate st in
  match videoRef st' with
  | Some v => setVideoRef (Some (HTMLVideoElement.assignPlaybackRate rate v)) st'
  | None => st'
  end.

Definition stepFrames (frames : Q) (st : AppState) : AppState :=
  match videoRef st with
  | Some v =>
      let v1 := HTMLVideoElement.pause v in
      let frameTime := (1 / fps st)%Q in
      let newTime :=
        JS.min (JS.max 0 (HTMLVideoElement.currentTime v1 + frames * frameTime)%Q)
               (HTMLVideoElement.duration v1) in
      let v2 := HTMLVideoElement.assignCurrentTime newTime v1 in
      setCurrentTime newTime (setIsPlaying false (setVideoRef (Some v2) st))
  | None => st
  end.

(** *** Lines *)

Definition LINE_COLORS : list string := ["red"; "blue"; "green"; "yellow"].

Definition addLine (newId : string) (st : AppState) : AppState :=
  let n := length (lines st) in
  let nextColor := nth (n mod length LINE_COLORS) LINE_COLORS "" in
  setLines
    (lines st ++
       [ReferenceLineData.mk newId (40 + inject_Z (Z.of_nat n) * 5)%Q nextColor])
    st.

Definition removeLine (id : string) (st : AppState) : AppState :=
  setLines (filter (λ l, ReferenceLineData.id l ≠ id) (lines st)) st.

(** The [onDelete] prop that each [DraggableLine] receives:
    [lines.length > 1 ? removeLine : undefined]. *)
Definition onDelete (st : AppState) : option (string → AppState → AppState) :=
  if (1 <? length (lines st))%nat then Some removeLine else None.

(** A click on the delete control of the line [id].  [DraggableLine]
    renders the control only when [onDelete] is defined. *)
Definition clickDelete (id : string) (st : AppState) : AppState :=
  match onDelete st with
  | Some del => del id st
  | None => st
  end.

(** *** Markers *)

(** [Array.prototype.sort] with the comparator [(a, b) => a.time - b.time]:
    a stable sort by ascending time. *)
Fixpoint insertByTime (x : VideoMarker.t) (l : list VideoMarker.t)
  : list VideoMarker.t :=
  match l with
  | [] => [x]
  | y :: l' =>
      if Qle_bool (VideoMarker.time x) (VideoMarker.time y)
      then x :: y :: l'
      else y :: insertByTime x l'
  end.

Definition sortByTime (l : list VideoMarker.t) : list VideoMarker.t :=
  foldr insertByTime [] l.

Definition addMarker (newId : string) (st : AppState) : AppState :=
  let newMarker :=
    VideoMarker.mk newId (currentTime st)
      ("Mark " ++ JS.toString (Z.of_nat (length (markers st)) + 1))%string in
  setMarkers (sortByTime (markers st ++ [newMarker])) st.

Definition removeMarker (id : string) (st : AppState) : AppState :=
  setMarkers (filter (λ m, VideoMarker.id m ≠ id) (markers st)) st.

Definition seekTo (time : Q) (st : AppState) : AppState :=
  match videoRef st with
  | Some v =>
      let v1 := HTMLVideoElement.assignCurrentTime time v in
      let st1 := setCurrentTime time (setVideoRef (Some v1) st) in
      let st2 := setIsPlaying false st1 in
      setVideoRef (Some (HTMLVideoElement.pause v1)) st2
  | None => st
  end.

(** *** Users *)

Definition handleCreateUser (newId : string) (now : Z) (st : AppState)
  : AppState :=
  if JS.falsy (JS.trim (newUserName st)) then st
  else
    let newUser := UserProfile.mk newId (newUserName st) now in
    let updatedUsers := users st ++ [newUser] in
    setIsUserModalOpen false
      (setNewUserName ""
         (setItem KEY_USERS (StoredUsers updatedUsers)
            (setCurrentUser (Some newUser) (setUsers updatedUsers st)))).

Definition handleSwitchUser (user : UserProfile.t) (st : AppState) : AppState :=
  setIsUserModalOpen false (setCurrentUser (Some user) st).

(** *** History and saving *)

(** The values [flightTime] and [jumpHeight] that every render derives from
    the two marks. *)
Definition flightTime (st : AppState) : Q :=
  match takeOffTime st, landingTime st with
  | Some takeOff, Some landing => JS.max 0 (landing - takeOff)%Q
  | _, _ => 0
  end.

(** [a > b] on numbers. *)
Definition Qgt_bool (a b : Q) : bool := negb (Qle_bool a b).

Definition jumpHeight (st : AppState) : Q :=
  if Qgt_bool (flightTime st) 0 then calculateJumpHeight (flightTime st) else 0.

Definition SAVED_MESSAGE : string := "計測結果を保存しました".

Definition saveResult (newId : string) (now : Z) (st : AppState) : AppState :=
  match currentUser st with
  | None => st
  | Some user =>
      if Qle_bool (flightTime st) 0 then st
      else
        let record :=
          JumpRecord.mk newId (UserProfile.id user) now (jumpHeight st)
            (flightTime st) None in
        let updatedHistory := record :: jumpHistory st in
        alert SAVED_MESSAGE
          (setItem KEY_HISTORY (StoredHistory updatedHistory)
             (setJumpHistory updatedHistory st))
  end.

Definition deleteHistoryItem (id : string) (st : AppState) : AppState :=
  let updatedHistory := filter (λ h, JumpRecord.id h ≠ id) (jumpHistory st) in
  setItem KEY_HISTORY (StoredHistory updatedHistory)
    (setJumpHistory updatedHistory st).

(** *** Inline handlers of the view *)

(** The timeline slider: [time] is the parsed value of the input. *)
Definition timelineChange (time : Q) (st : AppState) : AppState :=
  let st' :=
    match videoRef st with
    | Some v => setVideoRef (Some (HTMLVideoElement.assignCurrentTime time v)) st
    | None => st
    end in
  setCurrentTime time st'.

(** The frame-rate field: [parsed] is the result of [parseInt], [None] for
    [NaN]; the stored value is [Math.max(1, parsed || 0)]. *)
Definition fpsInputChange (parsed : option Z) (st : AppState) : AppState :=
  setFps (JS.max 1 (inject_Z (default 0%Z parsed))) st.

Definition FPS_PRESETS : list Z := [30; 60; 120; 240]%Z.

(** The take-off and landing buttons are disabled while [videoSrc] is null. *)
Definition markTakeOff (st : AppState) : AppState :=
  match videoSrc st with
  | Some _ => setTakeOffTime (Some (currentTime st)) st
  | None => st
  end.

Definition markLanding (st : AppState) : AppState :=
  match videoSrc st with
  | Some _ => setLandingTime (Some (currentTime st)) st
  | None => st
  end.

(** ** Events *)

(** Everything that can happen to the application once it is mounted:
    the host changes the video element, or the user triggers a handler.
    Identifiers and clock readings drawn by a handler travel with the
    event. *)
Inductive Event :=
| EHostVideo (v : HTMLVideoElement.t)
| EFileUpload (file : option string)
| EResize (offsetHeight : Q)
| ETogglePlay
| ETimeUpdate
| ELoadedMetadata
| EEnded
| EPlaybackRate (rate : Q)
| EStepFrames (frames : Q)
| ETimeline (time : Q)
| ESeekTo (time : Q)
| EFpsInput (parsed : option Z)
| EFpsPreset (val : Z)
| EAddLine (newId : string)
| EClickDelete (id : string)
| EAddMarker (newId : string)
| ERemoveMarker (id : string)
| EMarkTakeOff
| EMarkLanding
| EOpenUserModal (open : bool)
| ETypeUserName (text : string)
| ECreateUser (newId : string) (now : Z)
| ESwitchUser (index : nat)
| ESaveResult (newId : string) (now : Z)
| EDeleteHistoryItem (id : string).

(** The host presents the element [v] (mounted once a source is set, then
    changed by playback, seeking and loading). *)
Definition hostVideo (v : HTMLVideoElement.t) (st : AppState) : AppState :=
  match videoSrc st with
  | Some _ => setVideoRef (Some v) st
  | None => st
  end.

(** A preset button exists for each value of [FPS_PRESETS] only. *)
Definition fpsPreset (val : Z) (st : AppState) : AppState :=
  if decide (val ∈ FPS_PRESETS) then setFps (inject_Z val) st else st.

(** The user modal lists [users]; a click picks the entry at [index]. *)
Definition clickUser (index : nat) (st : AppState) : AppState :=
  match users st !! index with
  | Some user => handleSwitchUser user st
  | None => st
  end.

Definition step (e : Event) (st : AppState) : AppState :=
  match e with
  | EHostVideo v => hostVideo v st
  | EFileUpload file => handleFileUpload file st
  | EResize offsetHeight => setContainerHeight offsetHeight st
  | ETogglePlay => togglePlay st
  | ETimeUpdate => handleTimeUpdate st
  | ELoadedMetadata => handleLoadedMetadata st
  | EEnded => setIsPlaying false st
  | EPlaybackRate rate => handlePlaybackRateChange rate st
  | EStepFrames frames => stepFrames frames st
  | ETimeline time => timelineChange time st
  | ESeekTo time => seekTo time st
  | EFpsInput parsed => fpsInputChange parsed st
  | EFpsPreset val => fpsPreset val st
  | EAddLine newId => addLine newId st
  | EClickDelete id => clickDelete id st
  | EAddMarker newId => addMarker newId st
  | ERemoveMarker id => removeMarker id st
  | EMarkTakeOff => markTakeOff st
  | EMarkLanding => markLanding st
  | EOpenUserModal open => setIsUserModalOpen open st
  | ETypeUserName text => setNewUserName text st
  | ECreateUser newId now => handleCreateUser newId now st
  | ESwitchUser index => clickUser index st
  | ESaveResult newId now => saveResult newId now st
  | EDeleteHistoryItem id => deleteHistoryItem id st
  end.

(** The state after a sequence of events, the first of the list first. *)
Definition run (es : list Event) (st : AppState) : AppState :=
  foldl (λ s e, step e s) st es.

(** The application as the first events find it: first render, then the
    mount effect. *)
Definition boot (guestId : string) (now : Z) (storage : gmap string Stored)
  : AppState :=
  initialize guestId now (initialState storage).

(** ** Fixed-width decimal fields

    The reading of [MM:SS.mmm] in the specification: a field of width two
    or three is its decimal digits, most significant first, zeros
    included. *)

Definition digit (d : Z) : ascii := ascii_of_nat (48 + Z.to_nat d).

Definition field2 (z : Z) : string :=
  String (digit (z / 10)) (String (digit (z mod 10)) EmptyString).

Definition field3 (z : Z) : string :=
  String (digit (z / 100)) (field2 (z mod 100)).

(** The 256 characters, and the test that a string, read as a decimal
    numeral, denotes a number below 100. *)
Definition allAscii : list ascii := ascii_of_nat <$> seq 0 256.

Definition belowHundred (s : string) : bool :=
  match NilEmpty.int_of_string s with
  | Some d => (Z.of_int d <? 100)%Z
  | None => true
  end.

(** ** A session used in the examples

    A ten-second video is loaded, take-off is marked at 1 s and landing at
    1.5 s. *)

Definition demoVideo : HTMLVideoElement.t := HTMLVideoElement.mk 0 10 true 1.

Definition demoBoot : AppState := boot "k3x9q0a1z" 1700000000000 ∅.

Definition demoLoaded : AppState :=
  run [EFileUpload (Some "blob:jump"); EHostVideo demoVideo; ELoadedMetadata]
      demoBoot.

Definition demoJump : AppState :=
  run [ETimeline 1; EMarkTakeOff; ETimeline (3 # 2); EMarkLanding] demoLoaded.

Definition demoNameTyped : AppState :=
  run [EOpenUserModal true; ETypeUserName " Ann "] demoJump.

(** A name of a space, an ideographic space, a no-break space and a
    tab. *)
Definition demoNameBlank : AppState :=
  run [EOpenUserModal true;
       ETypeUserName (" " ++ JS.utf8 0x3000 ++ JS.utf8 0xA0 ++ JS.utf8 0x9)]
      demoJump.

(** Two lines are added, then every delete control is clicked in turn. *)
Definition demoLineEvents : list Event :=
  [EAddLine "p0o9i8u7y"; EAddLine "m1n2b3v4c"; EClickDelete "default";
   EClickDelete "p0o9i8u7y"; EClickDelete "m1n2b3v4c"].

(** The same, with [generateId()] returning one identifier twice. *)
Definition collidingLineEvents : list Event :=
  [EAddLine "p0o9i8u7y"; EAddLine "p0o9i8u7y"; EClickDelete "default";
   EClickDelete "p0o9i8u7y"].

(** The end-to-end session of the specification: load, mark take-off at
    1 s, mark landing at 1.5 s, save. *)
Definition demoSaveEvents : list Event :=
  [EFileUpload (Some "blob:jump"); EHostVideo demoVideo; ELoadedMetadata;
   ETimeline 1; EMarkTakeOff; ETimeline (3 # 2); EMarkLanding;
   ESaveResult "r7c2m5p8d" 1700000060000].

(** ** Predicates of the statements *)

(** [s] consists of white space characters. *)
Inductive allWhiteSpace : string → Prop :=
| allWhiteSpace_nil : allWhiteSpace EmptyString
| allWhiteSpace_cons (w s : string) :
    w ∈ JS.WHITE_SPACE → allWhiteSpace s → allWhiteSpace (w ++ s).

(** [s] ends with a white space character. *)
Definition endsWithWhiteSpace (s : string) : Prop :=
  ∃ s' w, w ∈ JS.WHITE_SPACE ∧ s = (s' ++ w)%string.

(** The bytes that continue a character in UTF-8. *)
Definition isContinuation (c : ascii) : bool :=
  let n := nat_of_ascii c in (128 <=? n)%nat && (n <? 192)%nat.

Fixpoint allContinuation (s : string) : bool :=
  match s with
  | EmptyString => true
  | String c s' => isContinuation c && allContinuation s'
  end.

(** [lo <= x <= hi]. *)
Definition within (lo hi x : Q) : Prop := (lo <= x ∧ x <= hi)%Q.

(** [Math.min(Math.max(lo, x), hi)], the clamp of [stepFrames]. *)
Definition clamp (lo hi x : Q) : Q := JS.min (JS.max lo x) hi.

Definition lineIds (st : AppState) : list string :=
  ReferenceLineData.id <$> lines st.

(** Identifiers are inputs of the model, so what the application relies on
    has to be said: [generateId()] hands [addLine] an identifier that is
    not the id of a line present (the ids serve as React keys). *)
Definition freshLineId (e : Event) (st : AppState) : Prop :=
  match e with
  | EAddLine newId => newId ∉ lineIds st
  | _ => True
  end.

Fixpoint freshLineIds (es : list Event) (st : AppState) : Prop :=
  match es with
  | [] => True
  | e :: es' => freshLineId e st ∧ freshLineIds es' (step e st)
  end.


(** ** [src/App.tsx]: the history panel *)

(** [Array.prototype.sort] with the comparator [(a, b) => b.date - a.date]:
    a stable sort by descending date. *)
Fixpoint insertByDate (x : JumpRecord.t) (l : list JumpRecord.t)
  : list JumpRecord.t :=
  match l with
  | [] => [x]
  | y :: l' =>
      if (JumpRecord.date y <=? JumpRecord.date x)%Z
      then x :: y :: l'
      else y :: insertByDate x l'
  end.

Definition sortByDate (l : list JumpRecord.t) : list JumpRecord.t :=
  foldr insertByDate [] l.

(** [h.userId === currentUser?.id]: with no current user the right-hand
    side is [undefined], which no string equals. *)
Definition ownedByCurrentUser (st : AppState) (h : JumpRecord.t) : Prop :=
  Some (JumpRecord.userId h) = UserProfile.id <$> currentUser st.

#[global] Instance ownedByCurrentUser_dec (st : AppState) (h : JumpRecord.t) :
  Decision (ownedByCurrentUser st h).
Proof. unfold ownedByCurrentUser. apply _. Defined.

(** The records that the history panel lists, in the order listed:
    [jumpHistory.filter(...).sort(...)]. *)
Definition visibleHistory (st : AppState) : list JumpRecord.t :=
  sortByDate (filter (ownedByCurrentUser st) (jumpHistory st)).

(** ** [src/components/DraggableLine.tsx] *)

Module DraggableLine.

(** The state of one line: [useState(initialTopPercent)] and
    [useState(false)]. *)
Record t := mk { topPercent : Q; isDragging : bool }.

(** What [getBoundingClientRect()] of the parent element gives. *)
Record DOMRect := mkRect { top : Q; height : Q }.

(** The first render; the prop defaults to 50. *)
Definition init (initialTopPercent : option Q) : t :=
  mk (default 50%Q initialTopPercent) false.

(** [onDeleteButton]: the press landed inside the [.delete-btn] control. *)
Definition handleMouseDown (onDeleteButton : bool) (s : t) : t :=
  if onDeleteButton then s else mk (topPercent s) true.

(** [parent] is the rectangle of [lineRef.current.parentElement], [None]
    when there is no such element. *)
Definition handleMouseMove (clientY : Q) (parent : option DOMRect) (s : t) : t :=
  match isDragging s, parent with
  | true, Some parentRect =>
      let newTop := (clientY - top parentRect)%Q in
      let newTop := JS.max 0 (JS.min newTop (height parentRect)) in
      let newPercent := (newTop / height parentRect * 100)%Q in
      mk newPercent (isDragging s)
  | _, _ => s
  end.

Definition handleMouseUp (s : t) : t := mk (topPercent s) false.

(** The pointer events a line can receive.  The window listeners for
    moves and releases exist only while [isDragging] holds. *)
Inductive Pointer :=
| Down (onDeleteButton : bool)
| Move (clientY : Q) (parent : option DOMRect)
| Up.

Definition step (e : Pointer) (s : t) : t :=
  match e with
  | Down onDeleteButton => handleMouseDown onDeleteButton s
  | Move clientY parent =>
      if isDragging s then handleMouseMove clientY parent s else s
  | Up => if isDragging s then handleMouseUp s else s
  end.

Definition run (es : list Pointer) (s : t) : t :=
  foldl (λ s e, step e s) s es.

(** Every parent rectangle met has a positive height. *)
Definition laidOut (e : Pointer) : Prop :=
  match e with
  | Move _ (Some parentRect) => (0 < height parentRect)%Q
  | _ => True
  end.

End DraggableLine.

(** ** Further predicates of the statements *)

(** Markers in ascending order of time. *)
Definition markersSorted (l : list VideoMarker.t) : Prop :=
  StronglySorted (λ a b, (VideoMarker.time a <= VideoMarker.time b)%Q) l.

(** Records in descending order of date. *)
Definition newestFirst (l : list JumpRecord.t) : Prop :=
  StronglySorted (λ a b, (JumpRecord.date b <= JumpRecord.date a)%Z) l.

(** The lists that a reload would read back from storage. *)
Definition storedUsers (m : gmap string Stored) : option (list UserProfile.t) :=
  match m !! KEY_USERS with
  | Some (StoredUsers us) => Some us
  | _ => None
  end.

Definition storedHistory (m : gmap string Stored) : list JumpRecord.t :=
  match m !! KEY_HISTORY with
  | Some (StoredHistory h) => h
  | _ => []
  end.

Definition userIds (st : AppState) : list string :=
  UserProfile.id <$> users st.

(** * Properties *)

(** ** Numbers *)

Section Numbers.

Local Open Scope Q_scope.

Lemma Qfloor_unique (z : Z) (q : Q) :
  inject_Z z <= q → q < inject_Z (z + 1) → Qfloor q = z.
Proof.
  intros Hlo Hhi.
  pose proof (Qfloor_le q) as Hfl.
  pose proof (Qlt_floor q) as Hfu.
  assert (Qfloor q < z + 1)%Z by (rewrite Zlt_Qlt; lra).
  assert (z < Qfloor q + 1)%Z by (rewrite Zlt_Qlt; lra).
  lia.
Qed.

Lemma Qfloor_bounds (q : Q) :
  inject_Z (Qfloor q) <= q ∧ q < inject_Z (Qfloor q) + 1.
Proof.
  split; [apply Qfloor_le |].
  pose proof (Qlt_floor q) as H. rewrite inject_Z_plus in H. exact H.
Qed.

Lemma Qfloor_nonneg (q : Q) : 0 <= q → (0 <= Qfloor q)%Z.
Proof.
  intros H. change 0%Z with (Qfloor 0). now apply Qfloor_resp_le.
Qed.

Lemma trunc_nonneg (q : Q) : 0 <= q → JS.trunc q = Qfloor q.
Proof.
  intros H. unfold JS.trunc.
  destruct (Qle_bool 0 q) eqn:E; [reflexivity |].
  apply Qle_bool_iff in H. congruence.
Qed.

(** Euclidean division of an integer, read in [Q]. *)
Lemma inject_Z_div_mod (w d : Z) :
  (0 < d)%Z →
  inject_Z w == inject_Z d * inject_Z (w / d) + inject_Z (w mod d)
  ∧ 0 <= inject_Z (w mod d) ∧ inject_Z (w mod d) + 1 <= inject_Z d.
Proof.
  intros Hd.
  pose proof (Z.div_mod w d ltac:(lia)) as Hdm.
  pose proof (Z.mod_pos_bound w d Hd) as [Hlo Hhi].
  repeat split.
  - rewrite <- inject_Z_mult, <- inject_Z_plus. now rewrite <- Hdm.
  - change 0 with (inject_Z 0). now rewrite <- Zle_Qle.
  - change 1 with (inject_Z 1). rewrite <- inject_Z_plus.
    rewrite <- Zle_Qle. lia.
Qed.

(** Whole minutes: the floor of [t / 60] is the integer quotient of the
    whole seconds. *)
Lemma floor_minutes (t : Q) :
  0 <= t → JS.floor (t / 60) = (Qfloor t / 60)%Z.
Proof.
  intros Ht. unfold JS.floor.
  destruct (Qfloor_bounds t) as [Hlo Hhi].
  destruct (inject_Z_div_mod (Qfloor t) 60 ltac:(lia)) as (Heq & Hr0 & Hr1).
  change (inject_Z 60) with 60 in *.
  unfold Qdiv. change (/ 60) with (1 # 60).
  apply Qfloor_unique; [| rewrite inject_Z_plus; change (inject_Z 1) with 1];
    lra.
Qed.

(** Whole seconds within the minute. *)
Lemma floor_seconds (t : Q) :
  0 <= t → JS.floor (JS.rem t 60) = (Qfloor t mod 60)%Z.
Proof.
  intros Ht. unfold JS.rem.
  rewrite trunc_nonneg
    by (unfold Qdiv; change (/ 60) with (1 # 60); lra).
  pose proof (floor_minutes t Ht) as Hm. unfold JS.floor in *. rewrite Hm.
  destruct (Qfloor_bounds t) as [Hlo Hhi].
  destruct (inject_Z_div_mod (Qfloor t) 60 ltac:(lia)) as (Heq & Hr0 & Hr1).
  change (inject_Z 60) with 60 in *.
  apply Qfloor_unique; [| rewrite inject_Z_plus; change (inject_Z 1) with 1];
    lra.
Qed.

(** Whole milliseconds within the second. *)
Lemma floor_millis (t : Q) :
  0 <= t → JS.floor (JS.rem t 1 * 1000) = (Qfloor (t * 1000) mod 1000)%Z.
Proof.
  intros Ht. unfold JS.rem, JS.floor.
  assert (Ht1 : t / 1 == t) by (unfold Qdiv; change (/ 1) with 1; ring).
  rewrite trunc_nonneg by lra.
  rewrite (Qfloor_comp _ _ Ht1).
  destruct (Qfloor_bounds t) as [Hlo Hhi].
  destruct (Qfloor_bounds (t * 1000)) as [Hlo' Hhi'].
  set (w := Qfloor t) in *. set (k := Qfloor (t * 1000)) in *.
  assert (Hk : (1000 * w <= k < 1000 * w + 1000)%Z).
  { split.
    - assert (1000 * w < k + 1)%Z; [| lia].
      rewrite Zlt_Qlt, inject_Z_mult, inject_Z_plus.
      change (inject_Z 1000) with 1000. change (inject_Z 1) with 1. lra.
    - rewrite Zlt_Qlt, inject_Z_plus, inject_Z_mult.
      change (inject_Z 1000) with 1000. lra. }
  assert (Hmod : (k mod 1000 = k - 1000 * w)%Z).
  { symmetry. apply (Z.mod_unique k 1000 w); lia. }
  rewrite Hmod.
  apply Qfloor_unique.
  - unfold Z.sub. rewrite inject_Z_plus, inject_Z_opp, inject_Z_mult.
    change (inject_Z 1000) with 1000. lra.
  - unfold Z.sub. rewrite !inject_Z_plus, inject_Z_opp, inject_Z_mult.
    change (inject_Z 1000) with 1000. change (inject_Z 1) with 1. lra.
Qed.

End Numbers.

(** ** Binary64 rounding *)

Section DoubleFacts.

Local Open Scope Q_scope.

Lemma two_pos (e : Z) : 0 < 2 ^ e.
Proof. apply Qpower_0_lt. reflexivity. Qed.

Lemma two_succ (e : Z) : 2 ^ (e + 1) == 2 * 2 ^ e.
Proof.
  rewrite Qpower_plus by discriminate. rewrite Qpower_1_r. ring.
Qed.

Lemma two_le (a b : Z) : (a <= b)%Z → 2 ^ a <= 2 ^ b.
Proof. intros H. apply Qpower_le_compat_l; [exact H | discriminate]. Qed.

Lemma two_lt_inv (a b : Z) : 2 ^ a < 2 ^ b → (a < b)%Z.
Proof. intros H. apply (Qpower_lt_compat_l_inv 2); [exact H | reflexivity]. Qed.

Lemma two_inject (n : Z) : (0 <= n)%Z → inject_Z (2 ^ n) == 2 ^ n.
Proof. intros H. now rewrite Zpower_Qpower. Qed.

(** A power of two with a non-positive exponent is the inverse of an
    integer. *)
Lemma two_neg_inverse (e : Z) :
  (e <= 0)%Z → inject_Z (2 ^ (- e)) * 2 ^ e == 1.
Proof.
  intros H. rewrite two_inject by lia.
  rewrite <- Qpower_plus by discriminate.
  replace (- e + e)%Z with 0%Z by lia. reflexivity.
Qed.

Lemma exponent_spec (x : Q) :
  0 < x → 2 ^ Double.exponent x <= x ∧ x < 2 ^ (Double.exponent x + 1).
Proof.
  intros Hx. destruct x as [n d].
  assert (Hn : (0 < n)%Z).
  { unfold Qlt in Hx. simpl in Hx. lia. }
  unfold Double.exponent. cbn [Qnum Qden].
  set (a := Z.log2 n). set (b := Z.log2 (Z.pos d)).
  destruct (Z.log2_spec n Hn) as [Hn1 Hn2].
  destruct (Z.log2_spec (Z.pos d) ltac:(lia)) as [Hd1 Hd2].
  fold a in Hn1, Hn2. fold b in Hd1, Hd2.
  assert (Ha : (0 <= a)%Z) by apply Z.log2_nonneg.
  assert (Hb : (0 <= b)%Z) by apply Z.log2_nonneg.
  rewrite Zle_Qle, two_inject in Hn1, Hd1 by lia.
  rewrite Zlt_Qlt, two_inject in Hn2, Hd2 by lia.
  replace (Z.succ a) with (a + 1)%Z in Hn2 by lia.
  replace (Z.succ b) with (b + 1)%Z in Hd2 by lia.
  rewrite two_succ in Hn2, Hd2.
  pose proof (two_pos a) as HA. pose proof (two_pos b) as HB.
  assert (Hx' : n # d == inject_Z n / inject_Z (Z.pos d)) by apply Qmake_Qdiv.
  assert (HD : 0 < inject_Z (Z.pos d)) by (unfold Qlt; simpl; lia).
  assert (Hab : 2 ^ (a - b) * 2 ^ b == 2 ^ a).
  { rewrite <- Qpower_plus by discriminate.
    replace (a - b + b)%Z with a by lia. reflexivity. }
  pose proof (two_pos (a - b)) as HAB.
  assert (Hxd : (n # d) * inject_Z (Z.pos d) == inject_Z n).
  { rewrite Hx'. field. lra. }
  set (x := n # d) in *. set (N := inject_Z n) in *.
  set (D := inject_Z (Z.pos d)) in *.
  set (A := 2 ^ a) in *. set (B := 2 ^ b) in *. set (C := 2 ^ (a - b)) in *.
  destruct (Qle_bool C x) eqn:E.
  - apply Qle_bool_iff in E. split; [exact E |].
    rewrite two_succ. fold C. nra.
  - assert (E' : x < C).
    { apply Qnot_le_lt. intros H. apply Qle_bool_iff in H. congruence. }
    replace (a - b - 1 + 1)%Z with (a - b)%Z by lia. fold C.
    split; [| exact E'].
    assert (HC : 2 * 2 ^ (a - b - 1) == C).
    { rewrite <- two_succ. replace (a - b - 1 + 1)%Z with (a - b)%Z by lia.
      reflexivity. }
    pose proof (two_pos (a - b - 1)) as HC'.
    set (C' := 2 ^ (a - b - 1)) in *. nra.
Qed.


Lemma exponent_ge (x : Q) (e : Z) :
  0 < x → 2 ^ e <= x → (e <= Double.exponent x)%Z.
Proof.
  intros Hx He. destruct (exponent_spec x Hx) as [_ Hhi].
  assert (e < Double.exponent x + 1)%Z; [| lia].
  apply two_lt_inv. lra.
Qed.

Lemma exponent_le (x : Q) (e : Z) :
  0 < x → x < 2 ^ (e + 1) → (Double.exponent x <= e)%Z.
Proof.
  intros Hx He. destruct (exponent_spec x Hx) as [Hlo _].
  assert (Double.exponent x < e + 1)%Z; [| lia].
  apply two_lt_inv. lra.
Qed.

Lemma exponent_unique (x : Q) (e : Z) :
  2 ^ e <= x → x < 2 ^ (e + 1) → Double.exponent x = e.
Proof.
  intros Hlo Hhi. pose proof (two_pos e) as He.
  assert (Hx : 0 < x) by lra.
  pose proof (exponent_ge x e Hx Hlo). pose proof (exponent_le x e Hx Hhi).
  lia.
Qed.

(** Zero is given the exponent of some number below one. *)
Lemma exponent_zero (x : Q) : x == 0 → (Double.exponent x <= -1)%Z.
Proof.
  intros Hx. destruct x as [n d].
  assert (n = 0%Z) as -> by (unfold Qeq in Hx; simpl in Hx; lia).
  unfold Double.exponent. cbn [Qnum Qden]. change (Z.log2 0) with 0%Z.
  pose proof (Z.log2_nonneg (Z.pos d)).
  destruct (Qle_bool _ _) eqn:E; [| lia].
  apply Qle_bool_iff in E.
  pose proof (two_pos (0 - Z.log2 (Z.pos d))) as Hp.
  exfalso. assert (0 # d == 0) by reflexivity. lra.
Qed.

Lemma Qabs_nonneg_eq (x : Q) : 0 <= x → Qabs x = x.
Proof.
  intros Hx. destruct x as [n d]. unfold Qabs.
  rewrite Z.abs_eq; [reflexivity |]. unfold Qle in Hx. simpl in Hx. lia.
Qed.

(** *** The nearest integer *)

Lemma nearestEven_cases (x : Q) :
  Double.nearestEven x = Qfloor x
  ∧ x - inject_Z (Qfloor x) <= 1 # 2
  ∨ Double.nearestEven x = (Qfloor x + 1)%Z
    ∧ 1 # 2 <= x - inject_Z (Qfloor x).
Proof.
  unfold Double.nearestEven.
  destruct (Qcompare_spec (x - inject_Z (Qfloor x)) (1 # 2)) as [H | H | H].
  - destruct (Z.even (Qfloor x)); [left | right]; split;
      try reflexivity; lra.
  - left. split; [reflexivity | lra].
  - right. split; [reflexivity | lra].
Qed.

Lemma nearestEven_ge (n : Z) (x : Q) :
  inject_Z n <= x → (n <= Double.nearestEven x)%Z.
Proof.
  intros H.
  assert (Hf : (n <= Qfloor x)%Z).
  { rewrite <- (Qfloor_Z n). now apply Qfloor_resp_le. }
  destruct (nearestEven_cases x) as [[-> _] | [-> _]]; lia.
Qed.

Lemma nearestEven_le (n : Z) (x : Q) :
  x <= inject_Z n → (Double.nearestEven x <= n)%Z.
Proof.
  intros H. destruct (Qfloor_bounds x) as [Hlo Hhi].
  assert (Hf : (Qfloor x <= n)%Z) by (rewrite Zle_Qle; lra).
  destruct (nearestEven_cases x) as [[-> _] | [-> Hr]]; [lia |].
  assert (Qfloor x < n)%Z; [| lia]. rewrite Zlt_Qlt. lra.
Qed.

Lemma nearestEven_lt (n : Z) (x : Q) :
  x + (1 # 2) < inject_Z n → (Double.nearestEven x < n)%Z.
Proof.
  intros H. destruct (Qfloor_bounds x) as [Hlo Hhi].
  destruct (nearestEven_cases x) as [[-> _] | [-> Hr]].
  - rewrite Zlt_Qlt. lra.
  - rewrite Zlt_Qlt, inject_Z_plus. change (inject_Z 1) with 1. lra.
Qed.

(** *** The spacing *)

Lemma ulp_pos (x : Q) : 0 < Double.ulp x.
Proof. apply two_pos. Qed.

Lemma exponent_small (x : Q) :
  0 <= x → x < 2 ^ 53 → (Double.exponent x <= 52)%Z.
Proof.
  intros H0 H1. destruct (Qlt_le_dec 0 x) as [Hx | Hx].
  - now apply exponent_le.
  - assert (x == 0) by lra. pose proof (exponent_zero x H). lia.
Qed.

(** Below 2^53 the spacing is the inverse of an integer: the integers are
    on the grid. *)
Lemma ulp_inverse (x : Q) :
  0 <= x → x < 2 ^ 53 →
  ∃ P : Z, (0 < P)%Z ∧ inject_Z P * Double.ulp x == 1.
Proof.
  intros H0 H1. unfold Double.ulp. rewrite (Qabs_nonneg_eq x H0).
  pose proof (exponent_small x H0 H1) as He.
  set (s := (Z.max (Double.exponent x) (-1022) - 52)%Z).
  assert (Hs : (s <= 0)%Z) by lia.
  exists (2 ^ (- s))%Z. split; [apply Z.pow_pos_nonneg; lia |].
  now apply two_neg_inverse.
Qed.

Lemma ulp_le_one (x : Q) : 0 <= x → x < 2 ^ 53 → Double.ulp x <= 1.
Proof.
  intros H0 H1. unfold Double.ulp. rewrite (Qabs_nonneg_eq x H0).
  pose proof (exponent_small x H0 H1) as He.
  change 1 with (2 ^ 0). apply two_le. lia.
Qed.

(** *** Rounding and the integers *)

Lemma round_ge_int (n : Z) (x : Q) :
  0 <= x → x < 2 ^ 53 → inject_Z n <= x → inject_Z n <= Double.round x.
Proof.
  intros H0 H1 Hn.
  destruct (ulp_inverse x H0 H1) as (P & HP & Hinv).
  pose proof (ulp_pos x) as Hu. unfold Double.round.
  set (u := Double.ulp x) in *.
  assert (HP' : 0 < inject_Z P) by (rewrite <- (Zlt_Qlt 0); exact HP).
  assert (Hq : x / u == x * inject_Z P) by (field_simplify_eq; [nra | lra]).
  assert (Hle : (n * P <= Double.nearestEven (x / u))%Z).
  { apply nearestEven_ge. rewrite Hq, inject_Z_mult. nra. }
  rewrite Zle_Qle, inject_Z_mult in Hle.
  set (r := inject_Z (Double.nearestEven (x / u))) in *. nra.
Qed.

Lemma round_le_int (n : Z) (x : Q) :
  0 <= x → x < 2 ^ 53 → x <= inject_Z n → Double.round x <= inject_Z n.
Proof.
  intros H0 H1 Hn.
  destruct (ulp_inverse x H0 H1) as (P & HP & Hinv).
  pose proof (ulp_pos x) as Hu. unfold Double.round.
  set (u := Double.ulp x) in *.
  assert (HP' : 0 < inject_Z P) by (rewrite <- (Zlt_Qlt 0); exact HP).
  assert (Hq : x / u == x * inject_Z P) by (field_simplify_eq; [nra | lra]).
  assert (Hle : (Double.nearestEven (x / u) <= n * P)%Z).
  { apply nearestEven_le. rewrite Hq, inject_Z_mult. nra. }
  rewrite Zle_Qle, inject_Z_mult in Hle.
  set (r := inject_Z (Double.nearestEven (x / u))) in *. nra.
Qed.

(** A number more than half a spacing below an integer is not rounded up
    to it. *)
Lemma round_lt_int (n : Z) (x : Q) :
  0 <= x → x < 2 ^ 53 → x + Double.ulp x / 2 < inject_Z n →
  Double.round x < inject_Z n.
Proof.
  intros H0 H1 Hn.
  destruct (ulp_inverse x H0 H1) as (P & HP & Hinv).
  pose proof (ulp_pos x) as Hu. unfold Double.round.
  set (u := Double.ulp x) in *.
  assert (HP' : 0 < inject_Z P) by (rewrite <- (Zlt_Qlt 0); exact HP).
  assert (Hq : x / u == x * inject_Z P) by (field_simplify_eq; [nra | lra]).
  assert (Hlt : (Double.nearestEven (x / u) < n * P)%Z).
  { apply nearestEven_lt. rewrite Hq, inject_Z_mult.
    unfold Qdiv in Hn. change (/ 2) with (1 # 2) in Hn.
    assert (0 < (inject_Z n - (x + u * (1 # 2))) * inject_Z P)
      by (apply Qmult_lt_0_compat; lra).
    lra. }
  assert (Hle : (Double.nearestEven (x / u) + 1 <= n * P)%Z) by lia.
  rewrite Zle_Qle, inject_Z_plus, inject_Z_mult in Hle.
  change (inject_Z 1) with 1 in Hle.
  set (r := inject_Z (Double.nearestEven (x / u))) in *.
  assert (0 <= (inject_Z n * inject_Z P - (r + 1)) * u)
    by (apply Qmult_le_0_compat; lra).
  assert (inject_Z n * inject_Z P * u == inject_Z n)
    by (rewrite <- Qmult_assoc, Hinv; ring).
  lra.
Qed.

(** The doubles below 2^53 lie on the grid of their spacing, and so does
    every integer: a double below an integer is a whole spacing below. *)
Lemma double_below_int (n : Z) (t : Q) :
  Double.isDouble t → 0 <= t → t < 2 ^ 53 → t < inject_Z n →
  t + Double.ulp t <= inject_Z n.
Proof.
  intros Hd H0 H1 Hn.
  destruct (ulp_inverse t H0 H1) as (P & HP & Hinv).
  pose proof (ulp_pos t) as Hu. unfold Double.isDouble, Double.round in Hd.
  set (u := Double.ulp t) in *.
  set (N := Double.nearestEven (t / u)) in *.
  assert (HP' : 0 < inject_Z P) by (rewrite <- (Zlt_Qlt 0); exact HP).
  assert (Hlt : (N < n * P)%Z).
  { rewrite Zlt_Qlt, inject_Z_mult. nra. }
  assert (Hle : (N + 1 <= n * P)%Z) by lia.
  rewrite Zle_Qle, inject_Z_plus, inject_Z_mult in Hle.
  change (inject_Z 1) with 1 in Hle. nra.
Qed.


(** From one half on, the spacing at [t] is at least 32 times the spacing
    at a number 32 times smaller. *)
Lemma ulp_scale (x t : Q) :
  1 # 2 <= x → 32 * x <= t → 32 * Double.ulp x <= Double.ulp t.
Proof.
  intros Hx Ht. unfold Double.ulp.
  rewrite (Qabs_nonneg_eq x), (Qabs_nonneg_eq t) by lra.
  assert (Hex : (-1 <= Double.exponent x)%Z).
  { apply exponent_ge; [lra |]. change (2 ^ (-1)) with (1 # 2). exact Hx. }
  destruct (exponent_spec x ltac:(lra)) as [Hlo _].
  assert (Het : (Double.exponent x + 5 <= Double.exponent t)%Z).
  { apply exponent_ge; [lra |].
    rewrite Qpower_plus by discriminate. change (2 ^ 5) with 32. lra. }
  rewrite !Z.max_l by lia.
  assert (E : 32 * 2 ^ (Double.exponent x - 52)
              == 2 ^ (Double.exponent x + 5 - 52)).
  { replace (Double.exponent x + 5 - 52)%Z
      with (Double.exponent x - 52 + 5)%Z by lia.
    rewrite Qpower_plus by discriminate. change (2 ^ 5) with 32. ring. }
  rewrite E. apply two_le. lia.
Qed.

(** From one half on, the spacing is at least 2^-53. *)
Lemma ulp_half (t : Q) : 1 # 2 <= t → 2 ^ (-53) <= Double.ulp t.
Proof.
  intros Ht. unfold Double.ulp. rewrite (Qabs_nonneg_eq t) by lra.
  assert (Het : (-1 <= Double.exponent t)%Z).
  { apply exponent_ge; [lra |]. change (2 ^ (-1)) with (1 # 2). exact Ht. }
  apply two_le. lia.
Qed.

End DoubleFacts.

(** ** The fields of [formatTime] *)

Section FormatTime.

Local Open Scope Q_scope.

(** The quotient of a double by 60 is not rounded up to an integer above
    it. *)
Lemma div60_lt (t : Q) (k : Z) :
  Double.isDouble t → 0 <= t → t < 2 ^ 53 → t < 60 * inject_Z k →
  Double.div t 60 < inject_Z k.
Proof.
  intros Hd H0 H1 Hk. unfold Double.div.
  change (2 ^ 53) with 9007199254740992 in *.
  assert (Hx : t / 60 == t * (1 # 60)) by reflexivity.
  set (x := t / 60) in *.
  assert (Hx0 : 0 <= x) by lra.
  assert (Hx1 : x < 9007199254740992) by lra.
  apply round_lt_int; [exact Hx0 | exact Hx1 |].
  pose proof (ulp_pos x) as Hu.
  unfold Qdiv. change (/ 2) with (1 # 2).
  destruct (Qlt_le_dec x (1 # 2)) as [Hsmall | Hbig].
  - pose proof (ulp_le_one x Hx0 Hx1) as Hu1.
    assert (Hk1 : (1 <= k)%Z).
    { assert (0 < k)%Z; [| lia]. rewrite Zlt_Qlt.
      change (inject_Z 0) with 0. lra. }
    rewrite Zle_Qle in Hk1. change (inject_Z 1) with 1 in Hk1. lra.
  - pose proof (double_below_int (60 * k) t Hd H0 H1) as Hgrid.
    rewrite inject_Z_mult in Hgrid. change (inject_Z 60) with 60 in Hgrid.
    specialize (Hgrid Hk).
    pose proof (ulp_scale x t Hbig ltac:(lra)) as Hs.
    lra.
Qed.

(** Whole minutes: the floor of the rounded quotient is the integer
    quotient of the whole seconds. *)
Lemma floor_div60 (t : Q) :
  Double.isDouble t → 0 <= t → t < 2 ^ 53 →
  JS.floor (Double.div t 60) = (Qfloor t / 60)%Z.
Proof.
  intros Hd H0 H1.
  pose proof (floor_minutes t H0) as Hm. unfold JS.floor in *.
  destruct (Qfloor_bounds (t / 60)) as [Hlo Hhi]. rewrite Hm in Hlo, Hhi.
  set (k := (Qfloor t / 60)%Z) in *.
  assert (Hx : t / 60 == t * (1 # 60)) by reflexivity.
  apply Qfloor_unique.
  - unfold Double.div. apply round_ge_int; [| | exact Hlo].
    + lra.
    + change (2 ^ 53) with 9007199254740992 in *. lra.
  - apply div60_lt; try assumption.
    rewrite inject_Z_plus. change (inject_Z 1) with 1. lra.
Qed.

(** The fraction of a double is a double below one. *)
Lemma rem1_le (t : Q) :
  Double.isDouble t → 0 <= t → t < 2 ^ 53 →
  0 <= JS.rem t 1 ∧ JS.rem t 1 <= 1 - 2 ^ (-53).
Proof.
  intros Hd H0 H1. unfold JS.rem.
  assert (Ht1 : t / 1 == t) by (unfold Qdiv; change (/ 1) with 1; ring).
  rewrite trunc_nonneg by lra.
  rewrite (Qfloor_comp _ _ Ht1).
  destruct (Qfloor_bounds t) as [Hlo Hhi].
  split; [lra |].
  change (2 ^ (-53)) with (1 # 9007199254740992).
  destruct (Qlt_le_dec t (1 # 2)) as [Hsmall | Hbig].
  - assert (Hf : Qfloor t = 0%Z).
    { apply Qfloor_unique; [exact H0 |]. change (inject_Z (0 + 1)) with 1.
      lra. }
    rewrite Hf. change (inject_Z 0) with 0. lra.
  - pose proof (ulp_half t Hbig) as Hu.
    change (2 ^ (-53)) with (1 # 9007199254740992) in Hu.
    pose proof (double_below_int (Qfloor t + 1) t Hd H0 H1) as Hgrid.
    rewrite inject_Z_plus in Hgrid. change (inject_Z 1) with 1 in Hgrid.
    specialize (Hgrid Hhi). lra.
Qed.

(** The product of a double below one with 1000 is not rounded up to
    1000. *)
Lemma mul1000_lt (f : Q) :
  0 <= f → f <= 1 - 2 ^ (-53) → Double.mul f 1000 < 1000.
Proof.
  intros H0 H1. unfold Double.mul.
  change (2 ^ (-53)) with (1 # 9007199254740992) in H1.
  set (x := f * 1000).
  assert (Hx0 : 0 <= x) by (unfold x; lra).
  assert (Hx1 : x < 2 ^ 53)
    by (change (2 ^ 53) with 9007199254740992; unfold x; lra).
  destruct (Qlt_le_dec x 512) as [Hsmall | Hbig].
  - pose proof (round_le_int 512 x Hx0 Hx1) as H.
    change (inject_Z 512) with 512 in H. lra.
  - change 1000 with (inject_Z 1000).
    apply round_lt_int; [exact Hx0 | exact Hx1 |].
    assert (He : Double.exponent x = 9%Z).
    { apply exponent_unique.
      - change (2 ^ 9) with 512. exact Hbig.
      - change (2 ^ (9 + 1)) with 1024. unfold x. lra. }
    unfold Double.ulp. rewrite (Qabs_nonneg_eq x Hx0), He.
    change (2 ^ (Z.max 9 (-1022) - 52)) with (1 # 8796093022208).
    change (inject_Z 1000) with 1000.
    unfold Qdiv. change (/ 2) with (1 # 2). unfold x. lra.
Qed.

(** Whole milliseconds: the floor of the rounded product is the floor of
    the exact one, or one more, and stays below 1000. *)
Lemma floor_mul1000 (t : Q) :
  Double.isDouble t → 0 <= t → t < 2 ^ 53 →
  let millis := JS.floor (Double.mul (JS.rem t 1) 1000) in
  (Qfloor (t * 1000) mod 1000 <= millis <= Qfloor (t * 1000) mod 1000 + 1)%Z
  ∧ (0 <= millis <= 999)%Z.
Proof.
  intros Hd H0 H1 millis.
  destruct (rem1_le t Hd H0 H1) as [Hf0 Hf1].
  pose proof (mul1000_lt _ Hf0 Hf1) as Hlt.
  pose proof (floor_millis t H0) as Hk. unfold JS.floor in Hk.
  destruct (Qfloor_bounds (JS.rem t 1 * 1000)) as [Hlo Hhi].
  rewrite Hk in Hlo, Hhi. clear Hk.
  subst millis. unfold JS.floor, Double.mul in *.
  change (2 ^ (-53)) with (1 # 9007199254740992) in Hf1.
  set (x := JS.rem t 1 * 1000) in *.
  set (k := (Qfloor (t * 1000) mod 1000)%Z) in *.
  assert (Hx0 : 0 <= x) by (unfold x; lra).
  assert (Hx1 : x < 2 ^ 53)
    by (change (2 ^ 53) with 9007199254740992; unfold x; lra).
  pose proof (round_ge_int k x Hx0 Hx1 Hlo) as Hge.
  pose proof (round_le_int (k + 1) x Hx0 Hx1) as Hle.
  rewrite inject_Z_plus in Hle. change (inject_Z 1) with 1 in Hle.
  specialize (Hle ltac:(lra)).
  pose proof (round_ge_int 0 x Hx0 Hx1 Hx0) as Hge0.
  change (inject_Z 0) with 0 in Hge0.
  destruct (Qfloor_bounds (Double.round x)) as [Hrl Hrh].
  set (m := Qfloor (Double.round x)) in *.
  assert (k < m + 1)%Z by (rewrite Zlt_Qlt, inject_Z_plus;
                          change (inject_Z 1) with 1; lra).
  assert (m <= k + 1)%Z by (rewrite Zle_Qle, inject_Z_plus;
                           change (inject_Z 1) with 1; lra).
  assert (0 < m + 1)%Z by (rewrite Zlt_Qlt, inject_Z_plus;
                          change (inject_Z 1) with 1;
                          change (inject_Z 0) with 0; lra).
  assert (m < 1000)%Z by (rewrite Zlt_Qlt; change (inject_Z 1000) with 1000;
                          lra).
  lia.
Qed.

End FormatTime.

(** ** Rendering of the time fields *)

Section Rendering.

Local Open Scope Z_scope.

(** Below one hundred, padding the decimal digits to width two gives the
    two-digit field. *)
Lemma padStart2_field2 (z : Z) :
  0 <= z < 100 → JS.padStart 2 "0" (JS.toString z) = field2 z.
Proof.
  intros Hz.
  assert (Hall : forallb
            (λ k, String.eqb (JS.padStart 2 "0" (JS.toString (Z.of_nat k)))
                             (field2 (Z.of_nat k)))
            (seq 0 100) = true) by (vm_compute; reflexivity).
  rewrite forallb_forall in Hall.
  specialize (Hall (Z.to_nat z)). rewrite Z2Nat.id in Hall by lia.
  apply String.eqb_eq, Hall, in_seq. lia.
Qed.

(** Below one thousand, padding to width three gives the three-digit
    field. *)
Lemma padStart3_field3 (z : Z) :
  0 <= z < 1000 → JS.padStart 3 "0" (JS.toString z) = field3 z.
Proof.
  intros Hz.
  assert (Hall : forallb
            (λ k, String.eqb (JS.padStart 3 "0" (JS.toString (Z.of_nat k)))
                             (field3 (Z.of_nat k)))
            (seq 0 1000) = true) by (vm_compute; reflexivity).
  rewrite forallb_forall in Hall.
  specialize (Hall (Z.to_nat z)). rewrite Z2Nat.id in Hall by lia.
  apply String.eqb_eq, Hall, in_seq. lia.
Qed.

Lemma length_repeat_char (c : ascii) (k : nat) :
  String.length (JS.repeat_char c k) = k.
Proof. induction k as [| k IH]; simpl; [reflexivity | now rewrite IH]. Qed.

Lemma length_string_app (s1 s2 : string) :
  String.length (s1 ++ s2)%string = (String.length s1 + String.length s2)%nat.
Proof. induction s1 as [| c s1 IH]; simpl; [reflexivity | now rewrite IH]. Qed.

Lemma allAscii_elem (a : ascii) : In a allAscii.
Proof.
  apply list_elem_of_In. unfold allAscii. apply list_elem_of_fmap.
  exists (nat_of_ascii a). split; [now rewrite ascii_nat_embedding |].
  apply list_elem_of_In, in_seq. pose proof (nat_ascii_bounded a). lia.
Qed.

(** A numeral of fewer than three characters denotes a number below
    100. *)
Lemma short_numerals :
  belowHundred EmptyString = true
  ∧ forallb
      (λ a, belowHundred (String a EmptyString)
            && forallb (λ b, belowHundred (String a (String b EmptyString)))
                 allAscii)
      allAscii = true.
Proof. split; vm_compute; reflexivity. Qed.

(** From 100 on the decimal digits are three or more. *)
Lemma length_toString (z : Z) :
  (100 <= z)%Z → (3 <= String.length (JS.toString z))%nat.
Proof.
  intros Hz. unfold JS.toString.
  pose proof (NilEmpty.isi (Z.to_int z)) as Hr.
  pose proof (DecimalZ.of_to z) as Hz'.
  destruct short_numerals as [H0 H].
  rewrite forallb_forall in H.
  destruct (NilEmpty.string_of_int (Z.to_int z)) as [| a [| b [| c s]]];
    [| | | simpl; lia]; exfalso.
  - unfold belowHundred in H0. rewrite Hr, Hz' in H0.
    apply Z.ltb_lt in H0. lia.
  - specialize (H a (allAscii_elem a)). apply andb_prop in H as [H _].
    unfold belowHundred in H. rewrite Hr, Hz' in H.
    apply Z.ltb_lt in H. lia.
  - specialize (H a (allAscii_elem a)). apply andb_prop in H as [_ H].
    rewrite forallb_forall in H. specialize (H b (allAscii_elem b)).
    unfold belowHundred in H. rewrite Hr, Hz' in H.
    apply Z.ltb_lt in H. lia.
Qed.

(** [padStart] never shortens and reaches the target width. *)
Lemma length_padStart (n : nat) (c : ascii) (s : string) :
  String.length (JS.padStart n c s) = Nat.max n (String.length s).
Proof.
  unfold JS.padStart. rewrite length_string_app, length_repeat_char. lia.
Qed.

End Rendering.

(** ** C1 and C3: [src/utils/physics.ts] *)

Section PhysicsFacts.

Local Open Scope Q_scope.

Lemma calculateJumpHeight_closed_form (t : Q) :
  calculateJumpHeight t == (G * (t * t)) / 8 * 100.
Proof. unfold calculateJumpHeight, JS.pow. simpl. reflexivity. Qed.

#[global] Instance calculateJumpHeight_proper :
  Proper (Qeq ==> Qeq) calculateJumpHeight.
Proof.
  intros t t' Heq. rewrite !calculateJumpHeight_closed_form.
  now rewrite Heq.
Qed.

End PhysicsFacts.

(** C1.  For every flight time [t] the height is [(g * t^2) / 8 * 100]
    centimetres with [g = 9.80665], that is [122.583125 * t^2]; the result
    depends on the value of [t] only; at [t = 0.5] it is 30.64578125,
    within 0.005 of 30.65, and the binary64 evaluation is within 0.005 of
    30.65 as well. *)
Theorem calculateJumpHeight_formula (t : Q) :
  (calculateJumpHeight t == ((980665 # 100000) * t ^ 2) / 8 * 100
   ∧ calculateJumpHeight t == (980665 # 8000) * (t * t)
   ∧ (∀ t' : Q, t == t' → calculateJumpHeight t == calculateJumpHeight t')
   ∧ calculateJumpHeight (1 # 2) == 3064578125 # 100000000
   ∧ Qabs (calculateJumpHeight (1 # 2) - (3065 # 100)) < 5 # 1000)%Q
  ∧ (PrimFloat.abs (Binary64.calculateJumpHeight 0.5 - 30.65) <? 0.005)%float
    = true.
Proof.
  split; [split; [| split; [| split; [| split]]] |].
  - rewrite calculateJumpHeight_closed_form. unfold G. simpl. reflexivity.
  - rewrite calculateJumpHeight_closed_form. unfold G, Qdiv.
    change (/ 8)%Q with (1 # 8). ring.
  - intros t' Heq. now rewrite Heq.
  - vm_compute. reflexivity.
  - vm_compute. reflexivity.
  - vm_compute. reflexivity.
Qed.

Lemma calculateJumpHeight_formula_witness :
  (1 # 2 == 2 # 4)%Q ∧
  (calculateJumpHeight (1 # 2) == calculateJumpHeight (2 # 4))%Q.
Proof.
  assert (H : (1 # 2 == 2 # 4)%Q) by reflexivity.
  split; [exact H |].
  destruct (calculateJumpHeight_formula (1 # 2)) as [(_ & _ & Hdet & _) _].
  apply Hdet, H.
Defined.

(** The rounding of module [Double] against the machine: decimal literals
    are read as the same doubles, and on the samples the quotient by 60,
    the fraction, the product with 1000 and the string are the same. *)
Example formatTime_agrees_with_machine :
  forallb agreesAt sampleDoubles = true
  ∧ Qred <$> Binary64.toQ 61.9996
    = Some (Qred (Double.round (619996 # 10000)))
  ∧ Qred <$> Binary64.toQ 0.999 = Some (Qred (Double.round (999 # 1000)))
  ∧ Qred <$> Binary64.toQ 4.35 = Some (Qred (Double.round (435 # 100)))
  ∧ Qred <$> Binary64.toQ 1e-320
    = Some (Qred (Double.round (1 # 10 ^ 320)))
  ∧ formatTime (Double.round (435 # 100)) = "00:04.349"%string.
Proof. repeat split; vm_compute; reflexivity. Qed.

(** C3, as claimed, fails in two ways.  [padStart] never shortens: from
    100 minutes on the minutes take three digits and more, and the string
    is not of the form [MM:SS.mmm].  And the milliseconds are the floor of
    a product that binary64 has rounded: the double nearest to 0.999 lies
    below 0.999, its whole milliseconds are 998, and 999 are shown. *)
Lemma formatTime_not_fixed_width :
  formatTime 6000 = "100:00.000"%string
  ∧ Binary64.formatTime 6000 = Some "100:00.000"%string
  ∧ String.length (formatTime 6000) = 10%nat
  ∧ Qfloor (Double.round (999 # 1000) * 1000) = 998%Z
  ∧ formatTime (Double.round (999 # 1000)) = "00:00.999"%string
  ∧ Binary64.formatTime 0.999 = Some "00:00.999"%string.
Proof. repeat split; vm_compute; reflexivity. Qed.

(** From 2^53 on the doubles are whole numbers two and more apart, and
    the quotient by 60 can be rounded up to the next whole number: the
    minutes shown for [60 * 2^52 + 32] seconds are one more than the whole
    minutes. *)
Remark formatTime_minutes_rounded_up :
  Double.isDouble (60 * 2 ^ 52 + 32)
  ∧ (Qfloor (60 * 2 ^ 52 + 32) / 60 = 4503599627370496)%Z
  ∧ formatTime (60 * 2 ^ 52 + 32) = "4503599627370497:32.000"%string
  ∧ Binary64.formatTime 270215977642229792
    = Some "4503599627370497:32.000"%string.
Proof. repeat split; vm_compute; reflexivity. Qed.

(** C3, as the code has it.  For every double [t] from 0 up to 2^53,
    [formatTime t] is the minutes, a colon, the seconds, a dot and the
    milliseconds.  The minutes are the whole seconds divided by 60 (rounded
    down), padded on the left with zeros to width two at least; they take
    exactly two digits below 6000 seconds and more from there on.  The
    seconds are the whole seconds modulo 60 as a two-digit field.  The
    milliseconds are a three-digit field: the floor of the product
    [(t % 1) * 1000] as binary64 rounds it, which is the whole milliseconds
    modulo 1000, or one more.  For the double nearest to 61.9996 the result
    is ["01:01.999"]. *)
Theorem formatTime_fields (t : Q) :
  Double.isDouble t → (0 <= t)%Q → (t < 2 ^ 53)%Q →
  let whole := Qfloor t in
  let millis := JS.floor (Double.mul (JS.rem t 1) 1000) in
  let minutes := JS.padStart 2 "0" (JS.toString (whole / 60)) in
  formatTime t
  = (minutes ++ ":" ++ field2 (whole mod 60) ++ "." ++ field3 millis)%string
  ∧ (Qfloor (t * 1000) mod 1000 <= millis <= Qfloor (t * 1000) mod 1000 + 1
     ∧ 0 <= millis <= 999)%Z
  ∧ (2 <= String.length minutes)%nat
  ∧ ((t < 6000)%Q → minutes = field2 (whole / 60))
  ∧ ((6000 <= t)%Q → (3 <= String.length minutes)%nat)
  ∧ formatTime (Double.round (619996 # 10000)) = "01:01.999"%string
  ∧ Binary64.formatTime 61.9996 = Some "01:01.999"%string.
Proof.
  intros Hd Ht H53 whole millis minutes.
  assert (Hw : (0 <= whole)%Z) by now apply Qfloor_nonneg.
  destruct (floor_mul1000 t Hd Ht H53) as [Hk Hms]. fold millis in Hk, Hms.
  split; [| split; [| split; [| split; [| split; [| split]]]]].
  - unfold formatTime.
    rewrite floor_div60, floor_seconds by assumption.
    fold whole. fold minutes. fold millis.
    rewrite padStart2_field2
      by (pose proof (Z.mod_pos_bound whole 60); lia).
    rewrite padStart3_field3 by lia.
    reflexivity.
  - split; assumption.
  - unfold minutes. rewrite length_padStart. lia.
  - intros Hlt. unfold minutes. apply padStart2_field2.
    split; [apply Z.div_pos; lia |].
    apply Z.div_lt_upper_bound; [lia |].
    destruct (Qfloor_bounds t) as [Hlo _]. fold whole in Hlo.
    rewrite Zlt_Qlt. change (inject_Z (60 * 100)) with 6000%Q. lra.
  - intros Hge. unfold minutes. rewrite length_padStart.
    assert (Hm : (100 <= whole / 60)%Z).
    { apply Z.div_le_lower_bound; [lia |].
      change 6000%Q with (inject_Z 6000) in Hge.
      apply (Qfloor_resp_le _ _) in Hge. rewrite Qfloor_Z in Hge.
      fold whole in Hge. lia. }
    pose proof (length_toString _ Hm). lia.
  - vm_compute. reflexivity.
  - vm_compute. reflexivity.
Qed.

Lemma formatTime_fields_witness :
  Double.isDouble (Double.round (619996 # 10000))
  ∧ (0 <= Double.round (619996 # 10000))%Q
  ∧ (Double.round (619996 # 10000) < 2 ^ 53)%Q
  ∧ formatTime (Double.round (619996 # 10000))
    = (JS.padStart 2 "0"
         (JS.toString (Qfloor (Double.round (619996 # 10000)) / 60))
       ++ ":" ++ field2 (Qfloor (Double.round (619996 # 10000)) mod 60)
       ++ "."
       ++ field3 (JS.floor
                    (Double.mul (JS.rem (Double.round (619996 # 10000)) 1)
                       1000)))%string.
Proof.
  assert (Hd : Double.isDouble (Double.round (619996 # 10000)))
    by (vm_compute; reflexivity).
  assert (H0 : (0 <= Double.round (619996 # 10000))%Q)
    by (vm_compute; discriminate).
  assert (H1 : (Double.round (619996 # 10000) < 2 ^ 53)%Q)
    by (vm_compute; reflexivity).
  split; [exact Hd | split; [exact H0 | split; [exact H1 |]]].
  exact (proj1 (formatTime_fields (Double.round (619996 # 10000)) Hd H0 H1)).
Defined.

(** ** C2: the derived flight time and height *)

Section Derived.

Local Open Scope Q_scope.

Lemma Qgt_bool_iff (a b : Q) : Qgt_bool a b = true ↔ b < a.
Proof.
  unfold Qgt_bool. rewrite negb_true_iff.
  destruct (Qle_bool a b) eqn:E; split; intros H; try reflexivity;
    try discriminate.
  - apply Qle_bool_iff in E. lra.
  - apply Qnot_le_lt. intros Hle. apply Qle_bool_iff in Hle. congruence.
Qed.

Lemma flightTime_nonneg (st : AppState) : 0 <= flightTime st.
Proof.
  unfold flightTime.
  destruct (takeOffTime st), (landingTime st); try lra.
  apply Q.le_max_l.
Qed.

Lemma jumpHeight_positive_flight (st : AppState) :
  0 < flightTime st → jumpHeight st = calculateJumpHeight (flightTime st).
Proof.
  intros H. unfold jumpHeight.
  destruct (Qgt_bool (flightTime st) 0) eqn:E; [reflexivity |].
  apply Qgt_bool_iff in H. congruence.
Qed.

Lemma jumpHeight_no_flight (st : AppState) :
  flightTime st <= 0 → jumpHeight st = 0.
Proof.
  intros H. unfold jumpHeight.
  destruct (Qgt_bool (flightTime st) 0) eqn:E; [| reflexivity].
  apply Qgt_bool_iff in E. lra.
Qed.


End Derived.

(** C2.  With take-off marked at [a] and landing at [b] the flight time is
    [max(0, b - a)]: [b - a] when landing does not precede take-off, 0
    otherwise.  With either mark missing it is 0.  It is never negative.
    The height is the physics formula when the flight time is positive and
    the sentinel 0 otherwise. *)
Theorem flightTime_jumpHeight_spec (st : AppState) :
  ((∀ a b : Q,
      takeOffTime st = Some a → landingTime st = Some b →
      flightTime st == Qmax 0 (b - a)
      ∧ (a <= b → flightTime st == b - a)
      ∧ (b <= a → flightTime st == 0))
   ∧ (takeOffTime st = None ∨ landingTime st = None → flightTime st = 0)
   ∧ 0 <= flightTime st
   ∧ (0 < flightTime st →
      jumpHeight st = calculateJumpHeight (flightTime st))
   ∧ (¬ 0 < flightTime st → jumpHeight st = 0))%Q.
Proof.
  split; [| split; [| split; [| split]]].
  - intros a b Ha Hb.
    assert (Hft : flightTime st = Qmax 0 (b - a))
      by (unfold flightTime; rewrite Ha, Hb; reflexivity).
    rewrite Hft. split; [reflexivity |]. split; intros Hab.
    + apply Q.max_r. lra.
    + apply Q.max_l. lra.
  - intros [H | H]; unfold flightTime; rewrite H;
      [| destruct (takeOffTime st)]; reflexivity.
  - apply flightTime_nonneg.
  - apply jumpHeight_positive_flight.
  - intros H. apply jumpHeight_no_flight. lra.
Qed.

Lemma flightTime_jumpHeight_witness :
  takeOffTime demoJump = Some 1%Q ∧ landingTime demoJump = Some (3 # 2)%Q
  ∧ (flightTime demoJump == Qmax 0 ((3 # 2) - 1))%Q.
Proof.
  assert (Ha : takeOffTime demoJump = Some 1%Q) by (vm_compute; reflexivity).
  assert (Hb : landingTime demoJump = Some (3 # 2)%Q)
    by (vm_compute; reflexivity).
  split; [exact Ha | split; [exact Hb |]].
  exact (proj1 (proj1 (flightTime_jumpHeight_spec demoJump) 1%Q (3 # 2)%Q
                  Ha Hb)).
Defined.

Example demoJump_values :
  (flightTime demoJump == 1 # 2)%Q
  ∧ (jumpHeight demoJump == 3064578125 # 100000000)%Q
  ∧ formatTime (flightTime demoJump) = "00:00.500"%string.
Proof. repeat split; vm_compute; reflexivity. Qed.

(** ** C8: creating a user *)

Lemma falsy_iff (s : string) : JS.falsy s = true ↔ s = EmptyString.
Proof. destruct s; simpl; split; intros H; congruence. Qed.

Section Trim.

Local Open Scope string_scope.

Lemma isWhiteSpace_elem (w : string) :
  JS.isWhiteSpace w = true → w ∈ JS.WHITE_SPACE.
Proof.
  unfold JS.isWhiteSpace. intros H.
  apply existsb_exists in H as (x & Hin & Heq).
  apply String.eqb_eq in Heq. subst x. now apply list_elem_of_In.
Qed.

(** A white space character at the start goes. *)
Lemma trimStart_white (w s : string) :
  w ∈ JS.WHITE_SPACE → JS.trimStart (w ++ s) = JS.trimStart s.
Proof.
  intros H. unfold JS.WHITE_SPACE in H. cbn [fmap list_fmap] in H.
  repeat (apply elem_of_cons in H as [-> | H]; [reflexivity |]).
  now apply elem_of_nil in H.
Qed.

Lemma trimStart_1 (a : ascii) :
  JS.trimStart (String a "")
  = if JS.isWhiteSpace (String a "") then "" else String a "".
Proof. reflexivity. Qed.

Lemma trimStart_2 (a b : ascii) :
  JS.trimStart (String a (String b ""))
  = if JS.isWhiteSpace (String a "") then JS.trimStart (String b "")
    else if JS.isWhiteSpace (String a (String b "")) then ""
    else String a (String b "").
Proof. reflexivity. Qed.

Lemma trimStart_3 (a b c : ascii) (s : string) :
  JS.trimStart (String a (String b (String c s)))
  = if JS.isWhiteSpace (String a "") then JS.trimStart (String b (String c s))
    else if JS.isWhiteSpace (String a (String b ""))
    then JS.trimStart (String c s)
    else if JS.isWhiteSpace (String a (String b (String c "")))
    then JS.trimStart s
    else String a (String b (String c s)).
Proof. reflexivity. Qed.

(** One step of [trimStart]: either nothing goes, or one white space
    character does. *)
Lemma trimStart_step (s : string) :
  JS.trimStart s = s
  ∨ ∃ w r, w ∈ JS.WHITE_SPACE ∧ s = w ++ r
           ∧ String.length r < String.length s
           ∧ JS.trimStart s = JS.trimStart r.
Proof.
  destruct s as [| a [| b [| c s]]]; [now left | ..].
  - rewrite trimStart_1.
    destruct (JS.isWhiteSpace (String a "")) eqn:E1; [right | now left].
    exists (String a ""), "". apply isWhiteSpace_elem in E1.
    repeat split; [exact E1 | simpl; lia].
  - rewrite trimStart_2.
    destruct (JS.isWhiteSpace (String a "")) eqn:E1.
    { right. exists (String a ""), (String b "").
      apply isWhiteSpace_elem in E1.
      repeat split; [exact E1 | simpl; lia]. }
    destruct (JS.isWhiteSpace (String a (String b ""))) eqn:E2;
      [right | now left].
    exists (String a (String b "")), "". apply isWhiteSpace_elem in E2.
    repeat split; [exact E2 | simpl; lia].
  - rewrite trimStart_3.
    destruct (JS.isWhiteSpace (String a "")) eqn:E1.
    { right. exists (String a ""), (String b (String c s)).
      apply isWhiteSpace_elem in E1.
      repeat split; [exact E1 | simpl; lia]. }
    destruct (JS.isWhiteSpace (String a (String b ""))) eqn:E2.
    { right. exists (String a (String b "")), (String c s).
      apply isWhiteSpace_elem in E2.
      repeat split; [exact E2 | simpl; lia]. }
    destruct (JS.isWhiteSpace (String a (String b (String c "")))) eqn:E3;
      [right | now left].
    exists (String a (String b (String c ""))), s.
    apply isWhiteSpace_elem in E3.
    repeat split; [exact E3 | simpl; lia].
Qed.

Lemma trimStart_empty_iff (s : string) :
  JS.trimStart s = "" ↔ allWhiteSpace s.
Proof.
  split.
  - remember (String.length s) as n eqn:Hn. revert s Hn.
    induction (lt_wf n) as [n _ IH]. intros s -> H.
    destruct (trimStart_step s) as [Hs | (w & r & Hw & -> & Hlen & Hr)].
    + rewrite Hs in H. subst s. constructor.
    + constructor; [exact Hw |].
      apply (IH _ Hlen r eq_refl). congruence.
  - induction 1 as [| w s Hw _ IH]; [reflexivity |].
    now rewrite trimStart_white.
Qed.

Lemma trimStart_idempotent (s : string) :
  JS.trimStart (JS.trimStart s) = JS.trimStart s.
Proof.
  remember (String.length s) as n eqn:Hn. revert s Hn.
  induction (lt_wf n) as [n _ IH]. intros s ->.
  destruct (trimStart_step s) as [Hs | (w & r & Hw & -> & Hlen & Hr)].
  - now rewrite !Hs.
  - rewrite Hr. now apply (IH _ Hlen).
Qed.

Lemma trimEnd_empty_iff (s : string) :
  JS.trimEnd s = "" ↔ JS.trimStart s = "".
Proof.
  destruct s as [| a s]; [reflexivity |]. cbn [JS.trimEnd].
  destruct (JS.trimStart (String a s)); cbn [JS.falsy]; [tauto |].
  split; discriminate.
Qed.

Lemma string_app_assoc (a b c : string) : (a ++ b) ++ c = a ++ (b ++ c).
Proof.
  induction a as [| x a IH]; [reflexivity |].
  change (String x ((a ++ b) ++ c) = String x (a ++ (b ++ c))).
  now rewrite IH.
Qed.

Lemma string_app_nil_r (a : string) : a ++ "" = a.
Proof.
  induction a as [| x a IH]; [reflexivity |].
  change (String x (a ++ "") = String x a). now rewrite IH.
Qed.

(** Two ways of splitting one string: one first part is the start of the
    other. *)
Lemma string_app_eq (s w w1 r : string) :
  s ++ w = w1 ++ r →
  (∃ k, s = w1 ++ k ∧ r = k ++ w)
  ∨ (∃ c k, w1 = s ++ String c k ∧ w = String c k ++ r).
Proof.
  revert w1. induction s as [| a s IH]; intros w1 H.
  - destruct w1 as [| c k].
    + left. exists "". simpl in *. now split.
    + right. exists c, k. simpl in *. now split.
  - destruct w1 as [| c k].
    + left. exists (String a s). simpl in *. now split.
    + simpl in H. injection H as -> H.
      destruct (IH k H) as [(k' & -> & ->) | (c' & k' & -> & ->)].
      * left. now exists k'.
      * right. now exists c', k'.
Qed.

(** A white space character starts with a byte that continues none, and
    goes on with bytes that do. *)
Lemma white_space_shape (w : string) :
  w ∈ JS.WHITE_SPACE →
  ∃ c w', w = String c w' ∧ isContinuation c = false
          ∧ allContinuation w' = true.
Proof.
  intros H. unfold JS.WHITE_SPACE in H. cbn [fmap list_fmap] in H.
  repeat (apply elem_of_cons in H as [-> | H];
          [eexists _, _; repeat split; reflexivity |]).
  now apply elem_of_nil in H.
Qed.

Lemma allContinuation_app (s t : string) :
  allContinuation (s ++ t) = true → allContinuation t = true.
Proof.
  induction s as [| a s IH]; simpl; [tauto |].
  intros H. apply andb_prop in H as [_ H]. now apply IH.
Qed.

Lemma length_trimStart (s : string) :
  (String.length (JS.trimStart s) <= String.length s)%nat.
Proof.
  remember (String.length s) as n eqn:Hn. revert s Hn.
  induction (lt_wf n) as [n _ IH]. intros s ->.
  destruct (trimStart_step s) as [Hs | (w & r & Hw & -> & Hlen & Hr)].
  - now rewrite Hs.
  - rewrite Hr. pose proof (IH _ Hlen r eq_refl). lia.
Qed.

Lemma trimStart_allWhiteSpace_app (s t : string) :
  allWhiteSpace s → JS.trimStart (s ++ t) = JS.trimStart t.
Proof.
  induction 1 as [| w s Hw _ IH]; [reflexivity |].
  now rewrite string_app_assoc, trimStart_white.
Qed.

(** White space behind a string that is not white space throughout does
    not make it so. *)
Lemma trimStart_app_white_inv (s w : string) :
  w ∈ JS.WHITE_SPACE → JS.trimStart (s ++ w) = "" → JS.trimStart s = "".
Proof.
  intros Hw. remember (String.length s) as n eqn:Hn. revert s Hn.
  induction (lt_wf n) as [n _ IH]. intros s -> H.
  destruct (trimStart_step s) as [Hs | (w1 & r & Hw1 & -> & Hlen & Hr)].
  - destruct s as [| a s]; [reflexivity |]. exfalso.
    destruct (trimStart_step (String a s ++ w))
      as [Hfix | (w1 & r & Hw1 & Heq & _ & _)].
    + rewrite Hfix in H. discriminate H.
    + destruct (white_space_shape w1 Hw1) as (c1 & w1' & -> & Hc1 & Hw1').
      apply string_app_eq in Heq
        as [(k & Hk & _) | (c & k & Hk & Hwk)].
      * pose proof (length_trimStart k) as Hlen.
        rewrite <- (trimStart_white (String c1 w1') k Hw1), <- Hk, Hs in Hlen.
        rewrite Hk, length_string_app in Hlen. simpl in Hlen. lia.
      * simpl in Hk. injection Hk as _ ->.
        apply allContinuation_app in Hw1'. simpl in Hw1'.
        apply andb_prop in Hw1' as [Hc _].
        destruct (white_space_shape w Hw) as (c' & w' & -> & Hc' & _).
        simpl in Hwk. injection Hwk as <- _. congruence.
  - rewrite Hr. apply (IH _ Hlen r eq_refl).
    now rewrite string_app_assoc, trimStart_white in H.
Qed.

(** [trimEnd] is the string less its trailing white space: white space at
    the end goes, and a string that does not end with white space stays as
    it is. *)
Lemma trimEnd_white (s w : string) :
  w ∈ JS.WHITE_SPACE → JS.trimEnd (s ++ w) = JS.trimEnd s.
Proof.
  intros Hw. induction s as [| a s IH].
  - destruct (white_space_shape w Hw) as (c & w' & -> & _ & _).
    change (JS.trimEnd (String c w') = ""). cbn [JS.trimEnd].
    pose proof (trimStart_white _ "" Hw) as E. rewrite string_app_nil_r in E.
    now rewrite E.
  - change (JS.trimEnd (String a (s ++ w)) = JS.trimEnd (String a s)).
    cbn [JS.trimEnd]. rewrite IH.
    change (String a (s ++ w)) with (String a s ++ w).
    destruct (JS.trimStart (String a s)) as [| x r] eqn:E1.
    + apply trimStart_empty_iff in E1.
      rewrite (trimStart_allWhiteSpace_app _ w E1).
      pose proof (trimStart_white _ "" Hw) as E. rewrite string_app_nil_r in E.
      now rewrite E.
    + destruct (JS.trimStart (String a s ++ w)) as [| y r'] eqn:E2;
        [| reflexivity].
      apply (trimStart_app_white_inv _ _ Hw) in E2. congruence.
Qed.

Lemma allWhiteSpace_ends (s : string) :
  allWhiteSpace s → s = "" ∨ endsWithWhiteSpace s.
Proof.
  induction 1 as [| w s Hw _ [-> | (s' & w' & Hw' & ->)]]; [now left | ..];
    right.
  - exists "", w. now rewrite string_app_nil_r.
  - exists (w ++ s'), w'. now rewrite string_app_assoc.
Qed.

Lemma trimEnd_fixed (s : string) :
  ¬ endsWithWhiteSpace s → JS.trimEnd s = s.
Proof.
  induction s as [| a s IH]; intros H; [reflexivity |]. cbn [JS.trimEnd].
  destruct (JS.trimStart (String a s)) as [| x r] eqn:E1.
  - apply trimStart_empty_iff, allWhiteSpace_ends in E1 as [E1 | E1];
      [discriminate E1 | contradiction].
  - cbn [JS.falsy]. rewrite IH; [reflexivity |].
    intros (s' & w & Hw & ->). apply H. now exists (String a s'), w.
Qed.

(** A string trims to the empty string exactly when it consists of white
    space. *)
Lemma trim_empty_iff (s : string) :
  JS.trim s = "" ↔ allWhiteSpace s.
Proof.
  unfold JS.trim.
  now rewrite trimEnd_empty_iff, trimStart_idempotent, trimStart_empty_iff.
Qed.

End Trim.


(** [trim] on names with white space of several bytes: an ideographic
    space in front and a byte order mark and a paragraph separator behind
    go, the em space inside stays; a string of ideographic spaces is
    emptied; an accented letter, the ideographic comma (which shares two
    bytes with the ideographic space) and the zero width space are not
    white space. *)
Example trim_examples :
  JS.trim (JS.utf8 0x3000 ++ " Ann" ++ JS.utf8 0x2003 ++ "Lee "
             ++ JS.utf8 0xFEFF ++ JS.utf8 0x2029)
  = ("Ann" ++ JS.utf8 0x2003 ++ "Lee")%string
  ∧ JS.trim (JS.utf8 0x3000 ++ JS.utf8 0x3000) = EmptyString
  ∧ JS.trim (JS.utf8 0xE9 ++ " ") = JS.utf8 0xE9
  ∧ JS.trim (JS.utf8 0x3001) = JS.utf8 0x3001
  ∧ JS.trim (JS.utf8 0x200B) = JS.utf8 0x200B.
Proof. repeat split; vm_compute; reflexivity. Qed.

(** C8.  [handleCreateUser] leaves the whole state as it is when the name
    typed trims to the empty string, that is, when it is white space
    throughout.  Otherwise the user list becomes the old list followed by
    one new profile (so it is longer by exactly one), the profile carries
    the identifier drawn, the name as typed and the clock reading, it
    becomes the current user, and the new list is what is stored under
    ["jumplab_users"]. *)
Theorem handleCreateUser_spec (newId : string) (now : Z) (st : AppState) :
  (JS.trim (newUserName st) = EmptyString →
   handleCreateUser newId now st = st)
  ∧ (JS.trim (newUserName st) ≠ EmptyString →
     let newUser := UserProfile.mk newId (newUserName st) now in
     let st' := handleCreateUser newId now st in
     users st' = users st ++ [newUser]
     ∧ length (users st') = S (length (users st))
     ∧ currentUser st' = Some newUser
     ∧ localStorage st'
       = <[KEY_USERS := StoredUsers (users st ++ [newUser])]> (localStorage st)
     ∧ jumpHistory st' = jumpHistory st)
  ∧ (JS.trim (newUserName st) = EmptyString
     ↔ allWhiteSpace (newUserName st)).
Proof.
  split; [| split].
  - intros H. unfold handleCreateUser. rewrite H. reflexivity.
  - intros H. cbv zeta. unfold handleCreateUser.
    destruct (JS.falsy (JS.trim (newUserName st))) eqn:E.
    + apply falsy_iff in E. contradiction.
    + simpl. rewrite length_app. simpl.
      repeat split; try reflexivity. lia.
  - apply trim_empty_iff.
Qed.

Lemma handleCreateUser_spec_witness :
  JS.trim (newUserName demoNameBlank) = EmptyString
  ∧ handleCreateUser "u4b8n1w6y" 1700000090000 demoNameBlank = demoNameBlank
  ∧ JS.trim (newUserName demoNameTyped) ≠ EmptyString
  ∧ length (users (handleCreateUser "u4b8n1w6y" 1700000090000 demoNameTyped))
    = 2%nat
  ∧ currentUser (handleCreateUser "u4b8n1w6y" 1700000090000 demoNameTyped)
    = Some (UserProfile.mk "u4b8n1w6y" " Ann " 1700000090000).
Proof.
  assert (Hb : JS.trim (newUserName demoNameBlank) = EmptyString)
    by (vm_compute; reflexivity).
  assert (Ht : JS.trim (newUserName demoNameTyped) ≠ EmptyString)
    by (vm_compute; discriminate).
  destruct (handleCreateUser_spec "u4b8n1w6y" 1700000090000 demoNameBlank)
    as [Hnoop _].
  destruct (handleCreateUser_spec "u4b8n1w6y" 1700000090000 demoNameTyped)
    as (_ & Hadd & _).
  destruct (Hadd Ht) as (_ & Hlen & Hcur & _).
  exact (conj Hb (conj (Hnoop Hb) (conj Ht (conj Hlen Hcur)))).
Defined.

(** ** C4: saving a result *)

Lemma saveResult_refused (newId : string) (now : Z) (st : AppState) :
  (flightTime st <= 0)%Q ∨ currentUser st = None →
  saveResult newId now st = st.
Proof.
  intros [Hft | Hu]; unfold saveResult.
  - destruct (currentUser st); [| reflexivity].
    apply Qle_bool_iff in Hft. now rewrite Hft.
  - now rewrite Hu.
Qed.

Lemma saveResult_accepted (newId : string) (now : Z) (st : AppState)
      (user : UserProfile.t) :
  currentUser st = Some user → (0 < flightTime st)%Q →
  let record :=
    JumpRecord.mk newId (UserProfile.id user) now
      (calculateJumpHeight (flightTime st)) (flightTime st) None in
  saveResult newId now st
  = alert SAVED_MESSAGE
      (setItem KEY_HISTORY (StoredHistory (record :: jumpHistory st))
         (setJumpHistory (record :: jumpHistory st) st)).
Proof.
  intros Hu Hft. cbv zeta. unfold saveResult. rewrite Hu.
  destruct (Qle_bool (flightTime st) 0) eqn:E.
  - apply Qle_bool_iff in E. lra.
  - now rewrite (jumpHeight_positive_flight st Hft).
Qed.

(** C4.  [saveResult] leaves the whole state as it is when the flight time
    is not positive or there is no current user.  Otherwise the history
    becomes the new record followed by the old history, the record carries
    the identifier drawn, the current user's id, the clock reading, the
    current height and the current flight time, the new history is what is
    stored under ["jumplab_history"], and users, marks, lines, markers and
    playback are untouched. *)
Theorem saveResult_spec (newId : string) (now : Z) (st : AppState) :
  ((flightTime st <= 0)%Q ∨ currentUser st = None →
   saveResult newId now st = st)
  ∧ (∀ user : UserProfile.t,
       currentUser st = Some user → (0 < flightTime st)%Q →
       let record :=
         JumpRecord.mk newId (UserProfile.id user) now (jumpHeight st)
           (flightTime st) None in
       let st' := saveResult newId now st in
       jumpHistory st' = record :: jumpHistory st
       ∧ length (jumpHistory st') = S (length (jumpHistory st))
       ∧ localStorage st'
         = <[KEY_HISTORY := StoredHistory (record :: jumpHistory st)]>
             (localStorage st)
       ∧ JumpRecord.heightCm record = calculateJumpHeight (flightTime st)
       ∧ users st' = users st ∧ currentUser st' = currentUser st
       ∧ takeOffTime st' = takeOffTime st ∧ landingTime st' = landingTime st
       ∧ lines st' = lines st ∧ markers st' = markers st
       ∧ currentTime st' = currentTime st ∧ isPlaying st' = isPlaying st
       ∧ videoRef st' = videoRef st).
Proof.
  split; [apply saveResult_refused |].
  intros user Hu Hft. cbv zeta.
  rewrite (saveResult_accepted newId now st user Hu Hft).
  rewrite (jumpHeight_positive_flight st Hft). simpl.
  repeat split; reflexivity.
Qed.

Lemma saveResult_spec_witness :
  currentUser demoJump = Some (UserProfile.mk "k3x9q0a1z" "Guest" 1700000000000)
  ∧ (0 < flightTime demoJump)%Q
  ∧ length (jumpHistory (saveResult "r7c2m5p8d" 1700000060000 demoJump)) = 1%nat.
Proof.
  assert (Hu : currentUser demoJump
               = Some (UserProfile.mk "k3x9q0a1z" "Guest" 1700000000000))
    by (vm_compute; reflexivity).
  assert (Hft : (0 < flightTime demoJump)%Q) by (vm_compute; reflexivity).
  split; [exact Hu | split; [exact Hft |]].
  destruct (saveResult_spec "r7c2m5p8d" 1700000060000 demoJump) as [_ Hsave].
  destruct (Hsave _ Hu Hft) as (_ & Hlen & _).
  exact Hlen.
Defined.

(** ** Runs *)

Ltac unfold_handlers :=
  unfold step, hostVideo, handleFileUpload, togglePlay, handleTimeUpdate,
    handleLoadedMetadata, handlePlaybackRateChange, stepFrames,
    timelineChange, seekTo, fpsInputChange, fpsPreset, addLine, clickDelete,
    onDelete, removeLine, addMarker, removeMarker, markTakeOff, markLanding,
    handleCreateUser, clickUser, handleSwitchUser, saveResult,
    deleteHistoryItem, alert, setItem.

Ltac frame_case :=
  unfold_handlers; repeat case_match; simplify_eq; reflexivity.

Lemma run_cons (e : Event) (es : list Event) (st : AppState) :
  run (e :: es) st = run es (step e st).
Proof. reflexivity. Qed.

Lemma run_app (es1 es2 : list Event) (st : AppState) :
  run (es1 ++ es2) st = run es2 (run es1 st).
Proof. unfold run. apply foldl_app. Qed.

(** A property kept by every step is kept by every run. *)
Lemma run_invariant (Inv : AppState → Prop) :
  (∀ e st, Inv st → Inv (step e st)) →
  ∀ es st, Inv st → Inv (run es st).
Proof.
  intros Hstep es. induction es as [| e es IH]; intros st Hst; [exact Hst |].
  rewrite run_cons. apply IH, Hstep, Hst.
Qed.

(** ** C9: handlers without a video element *)

(** The element exists only once a source has been chosen. *)
Lemma step_element_source (e : Event) (st : AppState) :
  (videoSrc st = None → videoRef st = None) →
  videoSrc (step e st) = None → videoRef (step e st) = None.
Proof.
  intros Hinv.
  assert (Hcases : videoRef st = None ∨ ∃ s, videoSrc st = Some s).
  { destruct (videoSrc st) as [s |]; [right; now exists s | left; auto]. }
  clear Hinv.
  destruct Hcases as [Hv | [s Hs]];
    destruct e; unfold_handlers; rewrite ?Hv, ?Hs;
    repeat case_match; simplify_eq; simpl;
    cbn [videoRef setPlaybackRate] in *; rewrite ?Hv, ?Hs; congruence.
Qed.

Lemma boot_no_element (guestId : string) (now : Z)
      (storage : gmap string Stored) :
  videoRef (boot guestId now storage) = None.
Proof.
  unfold boot, initialize, setItem. repeat case_match; reflexivity.
Qed.

(** C9.  While no video element is mounted, [togglePlay], [stepFrames n]
    for every [n] and [seekTo t] for every [t] return the state they were
    given.  From start-up on, no element is mounted as long as no video
    source has been chosen. *)
Theorem no_video_no_op (st : AppState) :
  videoRef st = None →
  togglePlay st = st
  ∧ (∀ n : Q, stepFrames n st = st)
  ∧ (∀ t : Q, seekTo t st = st)
  ∧ (∀ (es : list Event) (guestId : string) (now : Z)
       (storage : gmap string Stored),
       videoSrc (run es (boot guestId now storage)) = None →
       videoRef (run es (boot guestId now storage)) = None).
Proof.
  intros H. unfold togglePlay, stepFrames, seekTo. rewrite H.
  split; [reflexivity |]. split; [reflexivity |]. split; [reflexivity |].
  intros es guestId now storage.
  apply (run_invariant (λ s, videoSrc s = None → videoRef s = None));
    [apply step_element_source |].
  intros _. apply boot_no_element.
Qed.

Lemma no_video_no_op_witness :
  videoRef demoBoot = None
  ∧ togglePlay demoBoot = demoBoot
  ∧ stepFrames 10 demoBoot = demoBoot
  ∧ seekTo (3 # 2) demoBoot = demoBoot.
Proof.
  assert (H : videoRef demoBoot = None) by (vm_compute; reflexivity).
  destruct (no_video_no_op demoBoot H) as (Ht & Hs & Hk & _).
  exact (conj H (conj Ht (conj (Hs 10%Q) (Hk (3 # 2)%Q)))).
Defined.

(** ** The configured frame rate *)

Section FrameRate.

Local Open Scope Q_scope.

Lemma step_fps (e : Event) (st : AppState) :
  1 <= fps st → 1 <= fps (step e st).
Proof.
  intros H.
  destruct e;
    try (replace (fps (step _ st)) with (fps st); [exact H | frame_case]).
  - simpl. unfold fpsInputChange. simpl. apply Q.le_max_l.
  - simpl. unfold fpsPreset. case_decide as Hin; [| exact H]. simpl.
    unfold FPS_PRESETS in Hin.
    repeat (apply elem_of_cons in Hin as [-> | Hin]; [discriminate |]).
    now apply elem_of_nil in Hin.
Qed.

(** From start-up on the frame rate is at least one frame per second. *)
Lemma fps_configured (es : list Event) (guestId : string) (now : Z)
      (storage : gmap string Stored) :
  1 <= fps (run es (boot guestId now storage)).
Proof.
  apply (run_invariant (λ st, 1 <= fps st)); [apply step_fps |].
  replace (fps (boot guestId now storage)) with 60; [discriminate |].
  unfold boot, initialize, setItem. repeat case_match; reflexivity.
Qed.

End FrameRate.

(** ** C5 and C6: seeking and frame stepping *)

Section Playback.

Local Open Scope Q_scope.

Lemma clamp_within (lo hi x : Q) : lo <= hi → within lo hi (clamp lo hi x).
Proof.
  intros H. unfold within, clamp, JS.min, JS.max. split.
  - apply Q.min_glb; [apply Q.le_max_l | exact H].
  - apply Q.le_min_r.
Qed.

Lemma clamp_inside (lo hi x : Q) : within lo hi x → clamp lo hi x == x.
Proof.
  intros [Hlo Hhi]. unfold clamp, JS.min, JS.max.
  rewrite (Q.max_r lo x Hlo). now apply Q.min_l.
Qed.

Lemma clamp_below (lo hi x : Q) : lo <= hi → x <= lo → clamp lo hi x == lo.
Proof.
  intros H Hx. unfold clamp, JS.min, JS.max.
  rewrite (Q.max_l lo x Hx). now apply Q.min_l.
Qed.

Lemma clamp_above (lo hi x : Q) : lo <= hi → hi <= x → clamp lo hi x == hi.
Proof.
  intros H Hx. unfold clamp, JS.min, JS.max.
  rewrite (Q.max_r lo x) by lra. now apply Q.min_r.
Qed.

#[global] Instance clamp_proper : Proper (Qeq ==> Qeq ==> Qeq ==> Qeq) clamp.
Proof.
  intros lo lo' Hlo hi hi' Hhi x x' Hx. unfold clamp, JS.min, JS.max.
  now rewrite Hlo, Hhi, Hx.
Qed.

Lemma clamp_idempotent (lo hi x : Q) :
  lo <= hi → clamp lo hi (clamp lo hi x) == clamp lo hi x.
Proof. intros H. apply clamp_inside, clamp_within, H. Qed.

(** A frame lasts [1 / fps], a positive time for a positive rate. *)
Lemma frameTime_pos (f : Q) : 0 < f → 0 < 1 / f.
Proof.
  intros H. unfold Qdiv. rewrite Qmult_1_l. now apply Qinv_lt_0_compat.
Qed.

End Playback.

(** C6.  With a video element mounted, a positive frame rate and a
    non-negative media duration, [stepFrames n] for an integer [n] pauses
    playback and sets the current time to the element's position moved by
    [n * (1 / fps)] and clamped to [[0, duration]]: the moved position
    itself when that is in range, and in every case a time in range.  The
    element is paused at the same position.  A frame has positive length,
    so from a position in range a non-negative [n] never moves back and a
    non-positive [n] never moves forward.  From start-up on the frame rate
    is at least 1, whatever is typed or chosen. *)
Theorem stepFrames_spec (n : Z) (st : AppState) (v : HTMLVideoElement.t) :
  videoRef st = Some v →
  (0 < fps st)%Q →
  (0 <= HTMLVideoElement.duration v)%Q →
  let st' := stepFrames (inject_Z n) st in
  let frameDuration := (1 / fps st)%Q in
  let position := HTMLVideoElement.currentTime v in
  let target := (position + inject_Z n * frameDuration)%Q in
  let total := HTMLVideoElement.duration v in
  isPlaying st' = false
  ∧ currentTime st' = clamp 0 total target
  ∧ within 0 total (currentTime st')
  ∧ (within 0 total target → (currentTime st' == target)%Q)
  ∧ (∃ v', videoRef st' = Some v'
           ∧ HTMLVideoElement.paused v' = true
           ∧ (HTMLVideoElement.currentTime v' == currentTime st')%Q
           ∧ HTMLVideoElement.duration v' = total)
  ∧ (0 < frameDuration)%Q
  ∧ (within 0 total position → (0 <= n)%Z → (position <= currentTime st')%Q)
  ∧ (within 0 total position → (n <= 0)%Z → (currentTime st' <= position)%Q)
  ∧ fps st' = fps st ∧ duration st' = duration st
  ∧ takeOffTime st' = takeOffTime st ∧ landingTime st' = landingTime st
  ∧ (∀ (es : list Event) (guestId : string) (now : Z)
       (storage : gmap string Stored),
       (1 <= fps (run es (boot guestId now storage)))%Q).
Proof.
  intros Hv Hfps Hdur st' frameDuration position target total.
  assert (Hcur : currentTime st' = clamp 0 total target)
    by (subst st'; unfold stepFrames; rewrite Hv; reflexivity).
  assert (Hframe : (0 < frameDuration)%Q) by now apply frameTime_pos.
  assert (Hin : within 0 total (clamp 0 total target))
    by now apply clamp_within.
  split; [| split; [| split; [| split; [| split; [| split; [| split;
    [| split]]]]]]].
  - subst st'. unfold stepFrames. rewrite Hv. reflexivity.
  - exact Hcur.
  - rewrite Hcur. exact Hin.
  - intros Ht. rewrite Hcur. now apply clamp_inside.
  - subst st'. unfold stepFrames. rewrite Hv. simpl.
    eexists. split; [reflexivity |]. simpl. repeat split.
    apply (clamp_idempotent 0 total target Hdur).
  - exact Hframe.
  - intros [Hp0 Hp1] Hn. rewrite Hcur.
    assert (0 <= inject_Z n)%Q
      by (change 0%Q with (inject_Z 0); now rewrite <- Zle_Qle).
    assert (0 <= inject_Z n * frameDuration)%Q
      by (apply Qmult_le_0_compat; lra).
    destruct (Qlt_le_dec target total) as [Hlt | Hge].
    + assert (E : within 0 total target)
        by (unfold within, target in *; split; lra).
      apply clamp_inside in E. unfold target in *. lra.
    + pose proof (clamp_above 0 total target Hdur Hge) as E. lra.
  - intros [Hp0 Hp1] Hn. rewrite Hcur.
    assert (inject_Z n <= 0)%Q
      by (change 0%Q with (inject_Z 0); now rewrite <- Zle_Qle).
    assert (inject_Z n * frameDuration <= 0)%Q by nra.
    destruct (Qlt_le_dec 0 target) as [Hlt | Hle].
    + assert (E : within 0 total target)
        by (unfold within, target in *; split; lra).
      apply clamp_inside in E. unfold target in *. lra.
    + pose proof (clamp_below 0 total target Hdur Hle) as E. lra.
  - subst st'. unfold stepFrames. rewrite Hv.
    split; [reflexivity |]. split; [reflexivity |].
    split; [reflexivity |]. split; [reflexivity |].
    apply fps_configured.
Qed.

Lemma stepFrames_spec_witness :
  videoRef demoLoaded = Some demoVideo
  ∧ (0 < fps demoLoaded)%Q
  ∧ (0 <= HTMLVideoElement.duration demoVideo)%Q
  ∧ currentTime (stepFrames (inject_Z 10) demoLoaded)
    = clamp 0 10 (0 + inject_Z 10 * (1 / 60))%Q
  ∧ isPlaying (stepFrames (inject_Z 10) demoLoaded) = false.
Proof.
  assert (Hv : videoRef demoLoaded = Some demoVideo)
    by (vm_compute; reflexivity).
  assert (Hf : (0 < fps demoLoaded)%Q) by (vm_compute; reflexivity).
  assert (Hd : (0 <= HTMLVideoElement.duration demoVideo)%Q)
    by (vm_compute; discriminate).
  destruct (stepFrames_spec 10 demoLoaded demoVideo Hv Hf Hd)
    as (Hp & Hc & _).
  exact (conj Hv (conj Hf (conj Hd (conj Hc Hp)))).
Defined.

(** C5, as the code has it.  With a video element mounted, [seekTo t] sets
    the current time to [t] itself and stops playback: [isPlaying] becomes
    false and the element is paused.  No clamping takes place in the
    handler; it is the host element that keeps its own position within
    [[0, duration]], and the current time takes that position at the next
    time-update event.  The current time equals the clamped value at once
    whenever [t] lies in [[0, duration]].  Duration, frame rate and marks
    are untouched. *)
Theorem seekTo_spec (t : Q) (st : AppState) (v : HTMLVideoElement.t) :
  videoRef st = Some v →
  let st' := seekTo t st in
  let total := HTMLVideoElement.duration v in
  currentTime st' = t
  ∧ isPlaying st' = false
  ∧ videoRef st'
    = Some (HTMLVideoElement.mk (clamp 0 total t) total true
              (HTMLVideoElement.playbackRate v))
  ∧ (within 0 total t → (currentTime st' == clamp 0 total t)%Q)
  ∧ currentTime (handleTimeUpdate st') = clamp 0 total t
  ∧ duration st' = duration st ∧ fps st' = fps st
  ∧ takeOffTime st' = takeOffTime st ∧ landingTime st' = landingTime st.
Proof.
  intros Hv st' total. subst st'. unfold seekTo, handleTimeUpdate.
  rewrite Hv. simpl.
  split; [reflexivity |]. split; [reflexivity |]. split; [reflexivity |].
  split; [| repeat split].
  intros Hin. symmetry. now apply clamp_inside.
Qed.

Lemma seekTo_spec_witness :
  videoRef demoLoaded = Some demoVideo
  ∧ currentTime (seekTo (3 # 2) demoLoaded) = (3 # 2)%Q
  ∧ isPlaying (seekTo (3 # 2) demoLoaded) = false.
Proof.
  assert (Hv : videoRef demoLoaded = Some demoVideo)
    by (vm_compute; reflexivity).
  destruct (seekTo_spec (3 # 2) demoLoaded demoVideo Hv) as (Hc & Hp & _).
  exact (conj Hv (conj Hc Hp)).
Defined.

(** C5 as stated fails: on the ten-second video, [seekTo 15] leaves the
    current time at 15, outside [[0, 10]], while the clamped value is 10;
    [seekTo (-1)] leaves it at -1. *)
Lemma seekTo_clamp_counterexample :
  videoRef demoLoaded = Some demoVideo
  ∧ HTMLVideoElement.duration demoVideo = 10%Q
  ∧ duration demoLoaded = 10%Q
  ∧ currentTime (seekTo 15 demoLoaded) = 15%Q
  ∧ (clamp 0 10 15 == 10)%Q
  ∧ ¬ (currentTime (seekTo 15 demoLoaded) == clamp 0 10 15)%Q
  ∧ ¬ within 0 10 (currentTime (seekTo 15 demoLoaded))
  ∧ currentTime (seekTo (-1) demoLoaded) = (-1)%Q
  ∧ ¬ within 0 10 (currentTime (seekTo (-1) demoLoaded)).
Proof.
  split; [vm_compute; reflexivity |].
  split; [reflexivity |].
  split; [vm_compute; reflexivity |].
  split; [vm_compute; reflexivity |].
  split; [vm_compute; reflexivity |].
  split; [vm_compute; intros H; discriminate H |].
  split; [vm_compute; intros [_ H]; apply H; reflexivity |].
  split; [vm_compute; reflexivity |].
  vm_compute. intros [H _]. apply H. reflexivity.
Qed.

(** ** C7: the reference lines *)

Section Lines.

Context {A K : Type} `{EqDecision K} (key : A → K).

(** Removing by key from a list without repeated keys drops at most one
    element. *)
Lemma filter_key_length (k : K) (l : list A) :
  NoDup (key <$> l) → length l ≤ S (length (filter (λ x, key x ≠ k) l)).
Proof.
  induction l as [| x l IH]; intros Hnd; [simpl; lia |].
  rewrite fmap_cons in Hnd. apply NoDup_cons in Hnd as [Hx Hnd].
  destruct (decide (key x = k)) as [Heq | Hne].
  - rewrite filter_cons_False by (intros Hk; now apply Hk).
    assert (Hall : filter (λ y, key y ≠ k) l = l).
    { clear IH Hnd. induction l as [| y l IHl]; [reflexivity |].
      rewrite fmap_cons in Hx. apply not_elem_of_cons in Hx as [Hy Hx].
      rewrite filter_cons_True by congruence. f_equal. now apply IHl. }
    rewrite Hall. simpl. lia.
  - rewrite filter_cons_True by assumption. simpl.
    specialize (IH Hnd). lia.
Qed.

Lemma filter_key_NoDup (P : A → Prop) `{∀ x, Decision (P x)} (l : list A) :
  NoDup (key <$> l) → NoDup (key <$> filter P l).
Proof.
  intros Hnd. apply (sublist_NoDup _ _ Hnd).
  apply fmap_sublist, sublist_filter.
Qed.

End Lines.

(** The invariant of the line collection: distinct ids, at least one
    line. *)
Lemma step_lines (e : Event) (st : AppState) :
  freshLineId e st →
  NoDup (lineIds st) ∧ 1 ≤ length (lines st) →
  NoDup (lineIds (step e st)) ∧ 1 ≤ length (lines (step e st)).
Proof.
  intros Hfresh [Hnd Hlen].
  destruct e;
    try (replace (lines (step _ st)) with (lines st) by frame_case;
         unfold lineIds in *;
         replace (lines (step _ st)) with (lines st) by frame_case;
         now split).
  - (* addLine *)
    simpl in *. unfold lineIds, addLine in *. simpl.
    rewrite fmap_app, length_app. simpl. split; [| lia].
    apply NoDup_app. split; [exact Hnd |]. split; [| apply NoDup_singleton].
    intros x Hx Hin. apply list_elem_of_singleton in Hin. now subst.
  - (* a click on a delete control *)
    simpl. unfold clickDelete, onDelete, lineIds in *.
    destruct (1 <? length (lines st))%nat eqn:E; [| now split].
    apply Nat.ltb_lt in E. unfold removeLine. simpl. split.
    + now apply filter_key_NoDup.
    + pose proof (filter_key_length ReferenceLineData.id id (lines st) Hnd).
      lia.
Qed.

Lemma run_lines (es : list Event) (st : AppState) :
  freshLineIds es st →
  NoDup (lineIds st) ∧ 1 ≤ length (lines st) →
  NoDup (lineIds (run es st)) ∧ 1 ≤ length (lines (run es st)).
Proof.
  revert st. induction es as [| e es IH]; intros st Hfresh Hinv;
    [exact Hinv |].
  destruct Hfresh as [He Hes]. rewrite run_cons.
  apply IH; [exact Hes |]. now apply step_lines.
Qed.

Lemma boot_lines (guestId : string) (now : Z) (storage : gmap string Stored) :
  lines (boot guestId now storage) = INITIAL_LINES.
Proof.
  unfold boot, initialize, setItem. repeat case_match; reflexivity.
Qed.

(** C7, as the code has it.  From start-up on, after any sequence of
    events in which every identifier handed to [addLine] is new among the
    lines present, at least one reference line exists.  With a single line
    left no delete control is offered and a click on one changes nothing;
    with more than one, and distinct identifiers, a delete removes at most
    one line. *)
Theorem lines_never_empty (es : list Event) (guestId : string) (now : Z)
        (storage : gmap string Stored) :
  freshLineIds es (boot guestId now storage) →
  1 ≤ length (lines (run es (boot guestId now storage)))
  ∧ (∀ (st : AppState) (id : string),
       length (lines st) ≤ 1 → onDelete st = None ∧ clickDelete id st = st)
  ∧ (∀ (st : AppState) (id : string),
       NoDup (lineIds st) → 1 < length (lines st) →
       length (lines st) ≤ S (length (lines (clickDelete id st)))).
Proof.
  intros Hfresh. split; [| split].
  - apply run_lines; [exact Hfresh |].
    unfold lineIds. rewrite boot_lines. simpl. split; [| lia].
    apply NoDup_singleton.
  - intros st id Hlen. unfold clickDelete, onDelete.
    destruct (1 <? length (lines st))%nat eqn:E; [| now split].
    apply Nat.ltb_lt in E. lia.
  - intros st id Hnd Hlen. unfold clickDelete, onDelete.
    apply Nat.ltb_lt in Hlen. rewrite Hlen. unfold removeLine. simpl.
    now apply filter_key_length.
Qed.

Lemma lines_never_empty_witness :
  freshLineIds demoLineEvents demoBoot
  ∧ 1 ≤ length (lines (run demoLineEvents demoBoot)).
Proof.
  assert (Hfresh : freshLineIds demoLineEvents demoBoot).
  { simpl. repeat split; apply (bool_decide_unpack _); vm_compute; exact I. }
  split; [exact Hfresh |].
  exact (proj1 (lines_never_empty demoLineEvents "k3x9q0a1z" 1700000000000 ∅
                  Hfresh)).
Defined.

Example demoLineEvents_result :
  lineIds (run demoLineEvents demoBoot) = ["m1n2b3v4c"].
Proof. vm_compute. reflexivity. Qed.

(** The guard is the view's: [removeLine] itself removes a sole line. *)
Remark removeLine_unguarded :
  lines (removeLine "default" demoBoot) = [].
Proof. vm_compute. reflexivity. Qed.

(** C7, as claimed, fails: nothing keeps [generateId()] from drawing one
    identifier twice.  After two lines were added under one identifier and
    the first line was deleted, two lines are left, so the delete control
    is offered; [removeLine] filters by id, so one click on it removes
    both, and no line is left. *)
Lemma lines_can_run_out :
  lineIds (run (take 3 collidingLineEvents) demoBoot)
  = ["p0o9i8u7y"; "p0o9i8u7y"]
  ∧ is_Some (onDelete (run (take 3 collidingLineEvents) demoBoot))
  ∧ run collidingLineEvents demoBoot
    = clickDelete "p0o9i8u7y" (run (take 3 collidingLineEvents) demoBoot)
  ∧ length (lines (run collidingLineEvents demoBoot)) = 0.
Proof.
  split; [vm_compute; reflexivity |].
  split; [vm_compute; eexists; reflexivity |].
  split; [| vm_compute; reflexivity].
  change collidingLineEvents
    with (take 3 collidingLineEvents ++ [EClickDelete "p0o9i8u7y"]) at 1.
  rewrite run_app. reflexivity.
Qed.

(** ** C10: the records of the history *)




Lemma boot_history (guestId : string) (now : Z) (storage : gmap string Stored) :
  jumpHistory (boot guestId now storage)
  = match storage !! KEY_HISTORY with
    | Some (StoredHistory h) => h
    | _ => []
    end.
Proof.
  unfold boot, initialize.
  match goal with
  | |- context [match localStorage ?s !! KEY_HISTORY with _ => _ end] =>
      set (st1 := s)
  end.
  assert (H1 : localStorage st1 !! KEY_HISTORY = storage !! KEY_HISTORY
               ∧ jumpHistory st1 = []).
  { subst st1. cbn [localStorage initialState].
    destruct (storage !! KEY_USERS) as [[[| u us] | h] |];
      (split; [| reflexivity]); try reflexivity;
      apply lookup_insert_ne; discriminate. }
  destruct H1 as [Hl Hj]. rewrite Hl.
  destruct (storage !! KEY_HISTORY) as [[us | h] |]; auto.
Qed.




(** The end-to-end scenario of the specification: one record, with flight
    time 0.5 and height 30.64578125, owned by the current user. *)
Example demoSaveEvents_history :
  ∃ r, jumpHistory (run demoSaveEvents demoBoot) = [r]
       ∧ (JumpRecord.flightTime r == 1 # 2)%Q
       ∧ (JumpRecord.heightCm r == 3064578125 # 100000000)%Q
       ∧ Some (JumpRecord.userId r)
         = UserProfile.id <$> currentUser (run demoSaveEvents demoBoot).
Proof.
  eexists. split; [vm_compute; reflexivity |].
  repeat split; vm_compute; reflexivity.
Qed.

(** * Further properties of the code *)

(** ** Markers *)

Section Markers.

Lemma insertByTime_perm (x : VideoMarker.t) (l : list VideoMarker.t) :
  insertByTime x l ≡ₚ x :: l.
Proof.
  induction l as [| y l IH]; simpl; [reflexivity |].
  destruct (Qle_bool (VideoMarker.time x) (VideoMarker.time y));
    [reflexivity |].
  rewrite IH. apply Permutation_swap.
Qed.

Lemma sortByTime_perm (l : list VideoMarker.t) : sortByTime l ≡ₚ l.
Proof.
  induction l as [| x l IH]; simpl; [reflexivity |].
  rewrite insertByTime_perm. now rewrite IH.
Qed.

Lemma insertByTime_sorted (x : VideoMarker.t) (l : list VideoMarker.t) :
  markersSorted l → markersSorted (insertByTime x l).
Proof.
  unfold markersSorted.
  induction l as [| y l IH]; intros Hl; simpl.
  - apply StronglySorted_cons. split; [constructor | exact Hl].
  - apply StronglySorted_cons in Hl as [Hy Hl].
    destruct (Qle_bool (VideoMarker.time x) (VideoMarker.time y)) eqn:E.
    + apply Qle_bool_iff in E.
      apply StronglySorted_cons. split.
      * constructor; [exact E |].
        eapply Forall_impl; [exact Hy |]. intros z Hz. simpl in *.
        now apply Qle_trans with (VideoMarker.time y).
      * apply StronglySorted_cons. now split.
    + assert (Hyx : (VideoMarker.time y <= VideoMarker.time x)%Q).
      { apply Qlt_le_weak, Qnot_le_lt. intros Hle.
        apply Qle_bool_iff in Hle. congruence. }
      apply StronglySorted_cons. split; [| now apply IH].
      rewrite insertByTime_perm. now constructor.
Qed.

Lemma sortByTime_sorted (l : list VideoMarker.t) :
  markersSorted (sortByTime l).
Proof.
  induction l as [| x l IH]; simpl; [constructor |].
  now apply insertByTime_sorted.
Qed.

Lemma filter_sorted {A : Type} (R : relation A) (P : A → Prop)
      `{∀ x, Decision (P x)} (l : list A) :
  StronglySorted R l → StronglySorted R (filter P l).
Proof.
  induction l as [| x l IH]; intros Hl; [constructor |].
  apply StronglySorted_cons in Hl as [Hx Hl].
  rewrite filter_cons. destruct (decide (P x)); [| now apply IH].
  apply StronglySorted_cons. split; [| now apply IH].
  apply Forall_forall. intros y Hy.
  apply list_elem_of_filter in Hy as [_ Hy].
  rewrite Forall_forall in Hx. now apply Hx.
Qed.

Lemma step_markers_sorted (e : Event) (st : AppState) :
  markersSorted (markers st) → markersSorted (markers (step e st)).
Proof.
  intros H.
  destruct e;
    try (replace (markers (step _ st)) with (markers st) by frame_case;
         exact H).
  - (* handleFileUpload *)
    simpl. unfold handleFileUpload. destruct file; [constructor | exact H].
  - (* addMarker *) simpl. apply sortByTime_sorted.
  - (* removeMarker *) simpl. now apply filter_sorted.
Qed.

Lemma boot_markers (guestId : string) (now : Z)
      (storage : gmap string Stored) :
  markers (boot guestId now storage) = [].
Proof.
  unfold boot, initialize, setItem. repeat case_match; reflexivity.
Qed.

End Markers.

(** X4.  From start-up on, after any sequence of events, the markers are
    listed in ascending order of time. *)
Theorem markers_always_sorted (es : list Event) (guestId : string) (now : Z)
        (storage : gmap string Stored) :
  markersSorted (markers (run es (boot guestId now storage))).
Proof.
  apply (run_invariant (λ st, markersSorted (markers st)));
    [apply step_markers_sorted |].
  rewrite boot_markers. constructor.
Qed.

(** X5.  [addMarker] adds exactly one marker and loses none: the new list
    is a rearrangement of the old markers and the new one, which carries
    the identifier drawn, the current time and the label numbered one
    above the old count; the list is in ascending order of time whatever
    the order before. *)
Theorem addMarker_adds_one (newId : string) (st : AppState) :
  let newMarker :=
    VideoMarker.mk newId (currentTime st)
      ("Mark " ++ JS.toString (Z.of_nat (S (length (markers st)))))%string in
  markers (addMarker newId st) ≡ₚ newMarker :: markers st
  ∧ length (markers (addMarker newId st)) = S (length (markers st))
  ∧ newMarker ∈ markers (addMarker newId st)
  ∧ (∀ m, m ∈ markers st → m ∈ markers (addMarker newId st))
  ∧ markersSorted (markers (addMarker newId st)).
Proof.
  intros newMarker.
  assert (Hperm : markers (addMarker newId st) ≡ₚ newMarker :: markers st).
  { unfold addMarker. simpl. rewrite sortByTime_perm.
    rewrite <- Permutation_cons_append.
    subst newMarker. now rewrite Nat2Z.inj_succ, <- Z.add_1_r. }
  split; [exact Hperm |]. split; [now rewrite Hperm |].
  split; [rewrite Hperm; apply list_elem_of_here |].
  split; [intros m Hm; rewrite Hperm; now apply list_elem_of_further |].
  unfold addMarker. simpl. apply sortByTime_sorted.
Qed.

(** ** Users, history and storage *)

(** Projections of updated states, without touching the maps. *)
Ltac fields :=
  cbn [videoSrc isPlaying currentTime duration playbackRate fps
       containerHeight takeOffTime landingTime lines markers users
       currentUser jumpHistory isUserModalOpen newUserName videoRef
       localStorage alerts
       setVideoSrc setIsPlaying setCurrentTime setDuration setPlaybackRate
       setFps setContainerHeight setTakeOffTime setLandingTime setLines
       setMarkers setUsers setCurrentUser setJumpHistory setIsUserModalOpen
       setNewUserName setVideoRef setLocalStorage setAlerts setItem alert
       initialState] in *.

Lemma keys_differ : KEY_USERS ≠ KEY_HISTORY.
Proof. discriminate. Qed.

Lemma storedUsers_insert_users (us : list UserProfile.t)
      (m : gmap string Stored) :
  storedUsers (<[KEY_USERS := StoredUsers us]> m) = Some us.
Proof. unfold storedUsers. now rewrite lookup_insert_eq. Qed.

Lemma storedUsers_insert_history (h : list JumpRecord.t)
      (m : gmap string Stored) :
  storedUsers (<[KEY_HISTORY := StoredHistory h]> m) = storedUsers m.
Proof.
  unfold storedUsers. rewrite lookup_insert_ne; [reflexivity |].
  intros H. now apply keys_differ.
Qed.

Lemma storedHistory_insert_history (h : list JumpRecord.t)
      (m : gmap string Stored) :
  storedHistory (<[KEY_HISTORY := StoredHistory h]> m) = h.
Proof. unfold storedHistory. now rewrite lookup_insert_eq. Qed.

Lemma storedHistory_insert_users (us : list UserProfile.t)
      (m : gmap string Stored) :
  storedHistory (<[KEY_USERS := StoredUsers us]> m) = storedHistory m.
Proof.
  unfold storedHistory. rewrite lookup_insert_ne; [reflexivity |].
  apply keys_differ.
Qed.

(** What the mount effect makes of the storage it finds. *)
Lemma boot_cases (guestId : string) (now : Z) (storage : gmap string Stored) :
  jumpHistory (boot guestId now storage) = storedHistory storage
  ∧ ((∃ us, storedUsers storage = Some us
            ∧ users (boot guestId now storage) = us
            ∧ currentUser (boot guestId now storage) = head us
            ∧ localStorage (boot guestId now storage) = storage)
     ∨ (storedUsers storage = None
        ∧ users (boot guestId now storage)
          = [UserProfile.mk guestId "Guest" now]
        ∧ currentUser (boot guestId now storage)
          = Some (UserProfile.mk guestId "Guest" now)
        ∧ localStorage (boot guestId now storage)
          = <[KEY_USERS := StoredUsers [UserProfile.mk guestId "Guest" now]]>
              storage)).
Proof.
  split; [apply boot_history |].
  unfold boot, initialize, storedUsers. fields.
  destruct (storage !! KEY_USERS) as [[[| u us] | h] |] eqn:Eu; fields.
  - left. exists []. repeat case_match; fields; auto.
  - left. exists (u :: us). repeat case_match; fields; auto.
  - right. repeat case_match; fields; auto.
  - right. repeat case_match; fields; auto.
Qed.

Ltac untouched field :=
  match goal with
  | |- context [field (step ?e ?st)] =>
      replace (field (step e st)) with (field st)
        by (unfold_handlers; repeat case_match; simplify_eq; fields;
            first [reflexivity | congruence])
  end.

(** Storage always holds the lists in memory. *)
Lemma step_storage_sync (e : Event) (st : AppState) :
  storedUsers (localStorage st) = Some (users st)
  ∧ storedHistory (localStorage st) = jumpHistory st →
  storedUsers (localStorage (step e st)) = Some (users (step e st))
  ∧ storedHistory (localStorage (step e st)) = jumpHistory (step e st).
Proof.
  intros [Hu Hh].
  destruct e;
    try (untouched localStorage; untouched users; untouched jumpHistory;
         now split).
  - (* handleCreateUser *)
    simpl. unfold handleCreateUser.
    destruct (JS.falsy (JS.trim (newUserName st))); [now split |]. fields.
    now rewrite storedUsers_insert_users, storedHistory_insert_users.
  - (* saveResult *)
    simpl. unfold saveResult.
    destruct (currentUser st) as [user |]; [| now split].
    destruct (Qle_bool (flightTime st) 0); [now split |]. fields.
    now rewrite storedUsers_insert_history, storedHistory_insert_history.
  - (* deleteHistoryItem *)
    simpl. unfold deleteHistoryItem. fields.
    now rewrite storedUsers_insert_history, storedHistory_insert_history.
Qed.

Lemma boot_storage_sync (guestId : string) (now : Z)
      (storage : gmap string Stored) :
  storedUsers (localStorage (boot guestId now storage))
  = Some (users (boot guestId now storage))
  ∧ storedHistory (localStorage (boot guestId now storage))
    = jumpHistory (boot guestId now storage).
Proof.
  destruct (boot_cases guestId now storage)
    as [Hh [(us & Hs & Hu & _ & Hl) | (Hs & Hu & _ & Hl)]];
    rewrite Hl, Hh, Hu.
  - now split.
  - now rewrite storedUsers_insert_users, storedHistory_insert_users.
Qed.

(** X6.  Storage is never behind: from start-up on, after any sequence of
    events, the users and the history kept under the two storage keys are
    the lists in memory.  Hence a reload (a fresh start on the storage
    left behind) shows the same users and the same history, and makes the
    first user the current one. *)
Theorem reload_round_trip (es : list Event) (guestId : string) (now : Z)
        (storage : gmap string Stored) (guestId' : string) (now' : Z) :
  let st := run es (boot guestId now storage) in
  let reloaded := boot guestId' now' (localStorage st) in
  storedUsers (localStorage st) = Some (users st)
  ∧ storedHistory (localStorage st) = jumpHistory st
  ∧ users reloaded = users st
  ∧ jumpHistory reloaded = jumpHistory st
  ∧ currentUser reloaded = head (users st)
  ∧ localStorage reloaded = localStorage st.
Proof.
  intros st reloaded.
  assert (Hsync : storedUsers (localStorage st) = Some (users st)
                  ∧ storedHistory (localStorage st) = jumpHistory st).
  { subst st.
    apply (run_invariant
             (λ s, storedUsers (localStorage s) = Some (users s)
                   ∧ storedHistory (localStorage s) = jumpHistory s));
      [apply step_storage_sync | apply boot_storage_sync]. }
  destruct Hsync as [Hu Hh].
  split; [exact Hu |]. split; [exact Hh |].
  subst reloaded.
  destruct (boot_cases guestId' now' (localStorage st))
    as [Hh' [(us & Hs & Hu' & Hc & Hl) | (Hs & _)]].
  - rewrite Hu in Hs. injection Hs as <-.
    rewrite Hu', Hh', Hh, Hc, Hl. repeat split.
  - rewrite Hu in Hs. discriminate Hs.
Qed.

(** ** The current user *)

Lemma step_current_user (e : Event) (st : AppState) :
  (∀ u, currentUser st = Some u → u ∈ users st)
  ∧ (users st ≠ [] → is_Some (currentUser st)) →
  (∀ u, currentUser (step e st) = Some u → u ∈ users (step e st))
  ∧ (users (step e st) ≠ [] → is_Some (currentUser (step e st))).
Proof.
  intros [Hin Hsome].
  destruct e;
    try (untouched users; untouched currentUser; split; assumption).
  - (* handleCreateUser *)
    cbn [step]. unfold handleCreateUser.
    destruct (JS.falsy (JS.trim (newUserName st))); [split; assumption |]. fields.
    split; [| intros _; eexists; reflexivity].
    intros u Hu. injection Hu as <-.
    apply elem_of_app. right. apply list_elem_of_here.
  - (* a click in the list of users *)
    cbn [step]. unfold clickUser, handleSwitchUser.
    destruct (users st !! index) as [user |] eqn:E; [| split; assumption]. fields.
    split; [| intros _; eexists; reflexivity].
    intros u Hu. injection Hu as <-.
    now apply list_elem_of_lookup_2 in E.
Qed.

Lemma boot_current_user (guestId : string) (now : Z)
      (storage : gmap string Stored) :
  (∀ u, currentUser (boot guestId now storage) = Some u →
        u ∈ users (boot guestId now storage))
  ∧ (users (boot guestId now storage) ≠ [] →
     is_Some (currentUser (boot guestId now storage))).
Proof.
  destruct (boot_cases guestId now storage)
    as [_ [(us & _ & Hu & Hc & _) | (_ & Hu & Hc & _)]]; rewrite Hu, Hc.
  - destruct us as [| u us]; simpl; split; try congruence.
    + intros v Hv. injection Hv as <-. apply list_elem_of_here.
    + intros _. eexists; reflexivity.
  - split; [| intros _; eexists; reflexivity].
    intros u Hu'. injection Hu' as <-. apply list_elem_of_here.
Qed.

(** X7.  From start-up on, after any sequence of events, the current user
    is one of the listed users, and there is a current user whenever the
    list is not empty. *)
Theorem current_user_is_listed (es : list Event) (guestId : string)
        (now : Z) (storage : gmap string Stored) :
  let st := run es (boot guestId now storage) in
  (∀ u, currentUser st = Some u → u ∈ users st)
  ∧ (users st ≠ [] → is_Some (currentUser st)).
Proof.
  intros st. subst st.
  apply (run_invariant
           (λ s, (∀ u, currentUser s = Some u → u ∈ users s)
                 ∧ (users s ≠ [] → is_Some (currentUser s))));
    [apply step_current_user | apply boot_current_user].
Qed.

Lemma step_users_prefix (e : Event) (st : AppState) :
  users st `prefix_of` users (step e st).
Proof.
  destruct e; try (untouched users; reflexivity).
  cbn [step]. unfold handleCreateUser.
  destruct (JS.falsy (JS.trim (newUserName st))); [reflexivity |]. fields.
  now apply prefix_app_r.
Qed.

(** X8.  Profiles are only ever added: after any sequence of events, from
    any state, the users listed before are still listed, unchanged and in
    the same order, at the front of the list. *)
Theorem users_only_grow (es : list Event) (st : AppState) :
  users st `prefix_of` users (run es st)
  ∧ length (users st) ≤ length (users (run es st))
  ∧ (∀ u, u ∈ users st → u ∈ users (run es st)).
Proof.
  assert (H : users st `prefix_of` users (run es st)).
  { revert st. induction es as [| e es IH]; intros st; [reflexivity |].
    rewrite run_cons. etransitivity; [apply step_users_prefix | apply IH]. }
  split; [exact H |]. split; [now apply prefix_length |].
  intros u Hu. destruct H as [k ->]. apply elem_of_app. now left.
Qed.

(** ** The owners of the records *)

Lemma step_owners (e : Event) (st : AppState) :
  (∀ u, currentUser st = Some u → u ∈ users st) →
  Forall (λ r, JumpRecord.userId r ∈ userIds st) (jumpHistory st) →
  Forall (λ r, JumpRecord.userId r ∈ userIds (step e st))
         (jumpHistory (step e st)).
Proof.
  intros Hcur H. unfold userIds in *.
  destruct e;
    try (untouched users; untouched jumpHistory; exact H).
  - (* handleCreateUser *)
    cbn [step]. unfold handleCreateUser.
    destruct (JS.falsy (JS.trim (newUserName st))); [exact H |]. fields.
    eapply Forall_impl; [exact H |]. intros r Hr. simpl in *.
    rewrite fmap_app. apply elem_of_app. now left.
  - (* saveResult *)
    cbn [step]. unfold saveResult.
    destruct (currentUser st) as [user |] eqn:Hu; [| exact H].
    destruct (Qle_bool (flightTime st) 0); [exact H |]. fields.
    apply Forall_cons. split; [| exact H]. simpl.
    apply list_elem_of_fmap_2. now apply Hcur.
  - (* deleteHistoryItem *)
    cbn [step]. unfold deleteHistoryItem. fields.
    apply Forall_forall. intros r Hr.
    apply list_elem_of_filter in Hr as [_ Hr].
    rewrite Forall_forall in H. now apply H.
Qed.

(** X9.  Every record belongs to a listed user: when each record found in
    storage at start-up carries the id of a user found in storage, then
    after any sequence of events each record of the history carries the id
    of a listed user.  (No handler removes a user.) *)
Theorem records_have_owners (es : list Event) (guestId : string) (now : Z)
        (storage : gmap string Stored) :
  Forall (λ r, JumpRecord.userId r
               ∈ UserProfile.id <$> default [] (storedUsers storage))
         (storedHistory storage) →
  let st := run es (boot guestId now storage) in
  Forall (λ r, JumpRecord.userId r ∈ userIds st) (jumpHistory st).
Proof.
  intros Hstored st. subst st.
  apply (run_invariant
           (λ s, (∀ u, currentUser s = Some u → u ∈ users s)
                 ∧ (users s ≠ [] → is_Some (currentUser s))
                 ∧ Forall (λ r, JumpRecord.userId r ∈ userIds s)
                          (jumpHistory s))).
  - intros e s (H1 & H2 & H3).
    destruct (step_current_user e s (conj H1 H2)) as [H1' H2'].
    split; [exact H1' |]. split; [exact H2' |]. now apply step_owners.
  - destruct (boot_current_user guestId now storage) as [H1 H2].
    split; [exact H1 |]. split; [exact H2 |]. unfold userIds.
    destruct (boot_cases guestId now storage)
      as [Hh [(us & Hs & Hu & _) | (Hs & Hu & _)]];
      rewrite Hh, Hu; rewrite Hs in Hstored; simpl in Hstored;
      [exact Hstored |].
    eapply Forall_impl; [exact Hstored |]. intros r Hr.
    now apply elem_of_nil in Hr.
Qed.

Lemma records_have_owners_witness :
  Forall (λ r, JumpRecord.userId r
               ∈ UserProfile.id <$> default [] (storedUsers ∅))
         (storedHistory ∅)
  ∧ Forall (λ r, JumpRecord.userId r
                 ∈ userIds (run demoSaveEvents demoBoot))
           (jumpHistory (run demoSaveEvents demoBoot)).
Proof.
  assert (H : Forall (λ r, JumpRecord.userId r
                           ∈ UserProfile.id <$> default [] (storedUsers ∅))
                     (storedHistory ∅)) by (vm_compute; constructor).
  split; [exact H |].
  exact (records_have_owners demoSaveEvents "k3x9q0a1z" 1700000000000 ∅ H).
Defined.

(** ** The history panel *)

Section HistoryPanel.

Lemma insertByDate_perm (x : JumpRecord.t) (l : list JumpRecord.t) :
  insertByDate x l ≡ₚ x :: l.
Proof.
  induction l as [| y l IH]; simpl; [reflexivity |].
  destruct (JumpRecord.date y <=? JumpRecord.date x)%Z; [reflexivity |].
  rewrite IH. apply Permutation_swap.
Qed.

Lemma sortByDate_perm (l : list JumpRecord.t) : sortByDate l ≡ₚ l.
Proof.
  induction l as [| x l IH]; simpl; [reflexivity |].
  rewrite insertByDate_perm. now rewrite IH.
Qed.

Lemma insertByDate_sorted (x : JumpRecord.t) (l : list JumpRecord.t) :
  newestFirst l → newestFirst (insertByDate x l).
Proof.
  unfold newestFirst.
  induction l as [| y l IH]; intros Hl; simpl.
  - apply StronglySorted_cons. split; [constructor | exact Hl].
  - apply StronglySorted_cons in Hl as [Hy Hl].
    destruct (JumpRecord.date y <=? JumpRecord.date x)%Z eqn:E.
    + apply Z.leb_le in E.
      apply StronglySorted_cons. split.
      * constructor; [exact E |].
        eapply Forall_impl; [exact Hy |]. intros z Hz. simpl in *. lia.
      * apply StronglySorted_cons. now split.
    + apply Z.leb_gt in E.
      apply StronglySorted_cons. split; [| now apply IH].
      rewrite insertByDate_perm. constructor; [simpl; lia | exact Hy].
Qed.

Lemma sortByDate_sorted (l : list JumpRecord.t) : newestFirst (sortByDate l).
Proof.
  induction l as [| x l IH]; simpl; [constructor |].
  now apply insertByDate_sorted.
Qed.

Lemma owned_same_user (st st' : AppState) (l : list JumpRecord.t) :
  currentUser st' = currentUser st →
  filter (ownedByCurrentUser st') l = filter (ownedByCurrentUser st) l.
Proof.
  intros H. apply list_filter_iff. intros r.
  unfold ownedByCurrentUser. now rewrite H.
Qed.

End HistoryPanel.

(** X10.  The history panel lists exactly the records of the history that
    carry the current user's id, each as often as it occurs, newest first;
    with no current user it lists nothing. *)
Theorem visibleHistory_view (st : AppState) :
  visibleHistory st ≡ₚ filter (ownedByCurrentUser st) (jumpHistory st)
  ∧ (∀ r, r ∈ visibleHistory st
          ↔ r ∈ jumpHistory st
            ∧ Some (JumpRecord.userId r) = UserProfile.id <$> currentUser st)
  ∧ newestFirst (visibleHistory st)
  ∧ length (visibleHistory st) ≤ length (jumpHistory st)
  ∧ (currentUser st = None → visibleHistory st = []).
Proof.
  assert (Hperm : visibleHistory st
                  ≡ₚ filter (ownedByCurrentUser st) (jumpHistory st))
    by apply sortByDate_perm.
  split; [exact Hperm |]. split; [| split; [| split]].
  - intros r. rewrite Hperm, list_elem_of_filter.
    unfold ownedByCurrentUser. tauto.
  - apply sortByDate_sorted.
  - rewrite Hperm. apply length_filter.
  - intros Hnone. apply Permutation_nil_r. rewrite Hperm.
    assert (Hall : ∀ l, filter (ownedByCurrentUser st) l = []).
    { induction l as [| r l IH]; [reflexivity |].
      rewrite filter_cons_False; [exact IH |].
      unfold ownedByCurrentUser. rewrite Hnone. discriminate. }
    now rewrite Hall.
Qed.

(** X11.  A result that is saved shows up: when there is a current user
    and the flight time is positive, the panel lists one record more after
    [saveResult], namely the records listed before and the new record,
    which carries the identifier drawn, the current flight time and the
    current height. *)
Theorem saved_record_is_listed (newId : string) (now : Z) (st : AppState)
        (user : UserProfile.t) :
  currentUser st = Some user → (0 < flightTime st)%Q →
  let record :=
    JumpRecord.mk newId (UserProfile.id user) now
      (calculateJumpHeight (flightTime st)) (flightTime st) None in
  let st' := saveResult newId now st in
  visibleHistory st' ≡ₚ record :: visibleHistory st
  ∧ record ∈ visibleHistory st'
  ∧ length (visibleHistory st') = S (length (visibleHistory st))
  ∧ (∀ r, r ∈ visibleHistory st → r ∈ visibleHistory st').
Proof.
  intros Hu Hft record st'.
  assert (Hperm : visibleHistory st' ≡ₚ record :: visibleHistory st).
  { subst st'. unfold visibleHistory. rewrite !sortByDate_perm.
    rewrite (saveResult_accepted newId now st user Hu Hft).
    rewrite (owned_same_user st) by reflexivity. fields.
    rewrite filter_cons_True; [reflexivity |].
    unfold ownedByCurrentUser. rewrite Hu. reflexivity. }
  split; [exact Hperm |]. split; [rewrite Hperm; apply list_elem_of_here |].
  split; [now rewrite Hperm |].
  intros r Hr. rewrite Hperm. now apply list_elem_of_further.
Qed.

Lemma saved_record_is_listed_witness :
  currentUser demoJump = Some (UserProfile.mk "k3x9q0a1z" "Guest" 1700000000000)
  ∧ (0 < flightTime demoJump)%Q
  ∧ length (visibleHistory (saveResult "r7c2m5p8d" 1700000060000 demoJump))
    = S (length (visibleHistory demoJump)).
Proof.
  assert (Hu : currentUser demoJump
               = Some (UserProfile.mk "k3x9q0a1z" "Guest" 1700000000000))
    by (vm_compute; reflexivity).
  assert (Hft : (0 < flightTime demoJump)%Q) by (vm_compute; reflexivity).
  split; [exact Hu | split; [exact Hft |]].
  exact (proj1 (proj2 (proj2
    (saved_record_is_listed "r7c2m5p8d" 1700000060000 demoJump _ Hu Hft)))).
Defined.

(** X12.  [deleteHistoryItem id] removes every record with that id and no
    other: the records left are those of the old history with a different
    id, in their old order; the storage holds the list left; deleting an
    id that no record carries leaves the history as it is, and so does
    deleting the same id again. *)
Theorem deleteHistoryItem_removes (id : string) (st : AppState) :
  let st' := deleteHistoryItem id st in
  (∀ r, r ∈ jumpHistory st'
        ↔ r ∈ jumpHistory st ∧ JumpRecord.id r ≠ id)
  ∧ jumpHistory st' `sublist_of` jumpHistory st
  ∧ storedHistory (localStorage st') = jumpHistory st'
  ∧ (id ∉ JumpRecord.id <$> jumpHistory st →
     jumpHistory st' = jumpHistory st)
  ∧ jumpHistory (deleteHistoryItem id st') = jumpHistory st'
  ∧ users st' = users st ∧ currentUser st' = currentUser st.
Proof.
  intros st'. subst st'. unfold deleteHistoryItem. fields.
  assert (Hkeep : ∀ l : list JumpRecord.t,
             id ∉ JumpRecord.id <$> l →
             filter (λ h, JumpRecord.id h ≠ id) l = l).
  { induction l as [| r l IH]; intros Hl; [reflexivity |].
    rewrite fmap_cons in Hl. apply not_elem_of_cons in Hl as [Hr Hl].
    rewrite filter_cons_True by congruence. f_equal. now apply IH. }
  split; [| split; [| split; [| split; [| split; [| split]]]]].
  - intros r. rewrite list_elem_of_filter. tauto.
  - apply sublist_filter.
  - apply storedHistory_insert_history.
  - apply Hkeep.
  - apply Hkeep. intros Hin.
    apply list_elem_of_fmap in Hin as (r & Hid & Hr).
    apply list_elem_of_filter in Hr as [Hne _]. congruence.
  - reflexivity.
  - reflexivity.
Qed.

(** ** Playback *)

(** X13.  The play flag follows the element: with a video element mounted,
    after [togglePlay], after [stepFrames] and after [seekTo] the state
    says "playing" exactly when the element is not paused, whatever the
    two said before; and two [togglePlay] in a row restore the play
    flag. *)
Theorem play_flag_follows_element (st : AppState) (v : HTMLVideoElement.t) :
  videoRef st = Some v →
  let agrees (s : AppState) :=
    ∃ v', videoRef s = Some v'
          ∧ isPlaying s = negb (HTMLVideoElement.paused v') in
  agrees (togglePlay st)
  ∧ (∀ n : Q, agrees (stepFrames n st))
  ∧ (∀ t : Q, agrees (seekTo t st))
  ∧ isPlaying (togglePlay st) = negb (isPlaying st)
  ∧ isPlaying (togglePlay (togglePlay st)) = isPlaying st.
Proof.
  intros Hv agrees. subst agrees. cbv beta.
  unfold togglePlay, stepFrames, seekTo. rewrite Hv. fields.
  split; [| split; [| split; [| split]]].
  - eexists. split; [reflexivity |]. now destruct (isPlaying st).
  - intros n. eexists. split; reflexivity.
  - intros t. eexists. split; reflexivity.
  - reflexivity.
  - apply negb_involutive.
Qed.

Lemma play_flag_follows_element_witness :
  videoRef demoLoaded = Some demoVideo
  ∧ isPlaying (togglePlay demoLoaded) = negb (isPlaying demoLoaded)
  ∧ isPlaying (togglePlay (togglePlay demoLoaded)) = isPlaying demoLoaded.
Proof.
  assert (Hv : videoRef demoLoaded = Some demoVideo)
    by (vm_compute; reflexivity).
  destruct (play_flag_follows_element demoLoaded demoVideo Hv)
    as (_ & _ & _ & H1 & H2).
  exact (conj Hv (conj H1 H2)).
Defined.

(** ** Loading a video and marking *)

(** X15.  Choosing a file starts a new measurement: both marks and all
    markers are dropped, playback is flagged as stopped at time 0, the
    flight time and the height are back to 0, and [saveResult] is refused
    until both marks are set again; history, users, lines and the frame
    rate are kept.  Closing the file dialog without a file changes
    nothing. *)
Theorem handleFileUpload_resets (url : string) (st : AppState) :
  let st' := handleFileUpload (Some url) st in
  handleFileUpload None st = st
  ∧ videoSrc st' = Some url
  ∧ takeOffTime st' = None ∧ landingTime st' = None ∧ markers st' = []
  ∧ isPlaying st' = false ∧ currentTime st' = 0%Q
  ∧ flightTime st' = 0%Q ∧ jumpHeight st' = 0%Q
  ∧ (∀ (newId : string) (now : Z), saveResult newId now st' = st')
  ∧ (∀ (newId : string) (now : Z),
       saveResult newId now (markTakeOff st') = markTakeOff st'
       ∧ saveResult newId now (markLanding st') = markLanding st')
  ∧ jumpHistory st' = jumpHistory st ∧ users st' = users st
  ∧ currentUser st' = currentUser st ∧ lines st' = lines st
  ∧ fps st' = fps st ∧ localStorage st' = localStorage st.
Proof.
  intros st'. subst st'. unfold handleFileUpload.
  split; [reflexivity |].
  do 6 (split; [reflexivity |]).
  split; [reflexivity |]. split; [reflexivity |].
  split; [| split; [| repeat split]].
  - intros newId now. apply saveResult_refused. left.
    unfold flightTime. fields. discriminate.
  - intros newId now. split; apply saveResult_refused; left;
      unfold flightTime, markTakeOff, markLanding; fields; discriminate.
Qed.

Lemma move_mark_takeoff (t : Q) (s : AppState) (url : string) :
  videoSrc s = Some url →
  let s' := markTakeOff (timelineChange t s) in
  takeOffTime s' = Some t ∧ landingTime s' = landingTime s
  ∧ videoSrc s' = Some url.
Proof.
  intros Hsrc. cbv zeta. unfold markTakeOff, timelineChange.
  destruct (videoRef s); fields; rewrite Hsrc; fields; auto.
Qed.

Lemma move_mark_landing (t : Q) (s : AppState) (url : string) :
  videoSrc s = Some url →
  let s' := markLanding (timelineChange t s) in
  landingTime s' = Some t ∧ takeOffTime s' = takeOffTime s
  ∧ videoSrc s' = Some url.
Proof.
  intros Hsrc. cbv zeta. unfold markLanding, timelineChange.
  destruct (videoRef s); fields; rewrite Hsrc; fields; auto.
Qed.

(** X16.  Marks are taken from the current time and the later mark of a
    kind replaces the earlier one.  With a video chosen: moving to [a],
    marking take-off, moving to [b] and marking landing gives the flight
    time [max(0, b - a)]; marking landing first and take-off second gives
    the same; and a second take-off mark at [c] makes it
    [max(0, b - c)]. *)
Theorem marks_compose (a b c : Q) (st : AppState) (url : string) :
  videoSrc st = Some url →
  (flightTime
     (run [ETimeline a; EMarkTakeOff; ETimeline b; EMarkLanding] st)
   == Qmax 0 (b - a)
   ∧ flightTime
       (run [ETimeline b; EMarkLanding; ETimeline a; EMarkTakeOff] st)
     == Qmax 0 (b - a)
   ∧ flightTime
       (run [ETimeline a; EMarkTakeOff; ETimeline b; EMarkLanding;
             ETimeline c; EMarkTakeOff] st)
     == Qmax 0 (b - c))%Q.
Proof.
  intros Hsrc.
  assert (Hflight : ∀ (s : AppState) (x y : Q),
             takeOffTime s = Some x → landingTime s = Some y →
             (flightTime s == Qmax 0 (y - x))%Q).
  { intros s x y Hx Hy. unfold flightTime. rewrite Hx, Hy. reflexivity. }
  split; [| split].
  - change (run _ st)
      with (markLanding (timelineChange b (markTakeOff (timelineChange a st)))).
    destruct (move_mark_takeoff a st url Hsrc) as (Ht & _ & Hs).
    destruct (move_mark_landing b _ url Hs) as (Hl & Ht' & _).
    apply Hflight; [now rewrite Ht' | exact Hl].
  - change (run _ st)
      with (markTakeOff (timelineChange a (markLanding (timelineChange b st)))).
    destruct (move_mark_landing b st url Hsrc) as (Hl & _ & Hs).
    destruct (move_mark_takeoff a _ url Hs) as (Ht & Hl' & _).
    apply Hflight; [exact Ht | now rewrite Hl'].
  - change (run _ st)
      with (markTakeOff (timelineChange c
              (markLanding (timelineChange b
                 (markTakeOff (timelineChange a st)))))).
    destruct (move_mark_takeoff a st url Hsrc) as (_ & _ & Hs).
    destruct (move_mark_landing b _ url Hs) as (Hl & _ & Hs').
    destruct (move_mark_takeoff c _ url Hs') as (Ht & Hl' & _).
    apply Hflight; [exact Ht | now rewrite Hl'].
Qed.

Lemma marks_compose_witness :
  videoSrc demoLoaded = Some "blob:jump"%string
  ∧ (flightTime
       (run [ETimeline 1; EMarkTakeOff; ETimeline (3 # 2); EMarkLanding]
            demoLoaded)
     == Qmax 0 ((3 # 2) - 1))%Q.
Proof.
  assert (H : videoSrc demoLoaded = Some "blob:jump"%string)
    by (vm_compute; reflexivity).
  split; [exact H |].
  exact (proj1 (marks_compose 1 (3 # 2) 0 demoLoaded _ H)).
Defined.

(** X17.  Whatever is typed in the frame-rate field, the frame rate stored
    is a whole number of at least 1: the number typed when that is 1 or
    more, and 1 when it is smaller or is not a number. *)
Theorem fpsInputChange_coerces (parsed : option Z) (st : AppState) :
  let newFps := fps (fpsInputChange parsed st) in
  (1 <= newFps)%Q
  ∧ (∃ z : Z, (1 <= z)%Z ∧ (newFps == inject_Z z)%Q)
  ∧ (parsed = None → (newFps == 1)%Q)
  ∧ (∀ z : Z, parsed = Some z →
       ((1 <= z)%Z → (newFps == inject_Z z)%Q)
       ∧ ((z <= 1)%Z → (newFps == 1)%Q)).
Proof.
  intros newFps. subst newFps. unfold fpsInputChange, JS.max. fields.
  assert (Hcases : ∀ z : Z,
             ((1 <= z)%Z → (Qmax 1 (inject_Z z) == inject_Z z)%Q)
             ∧ ((z <= 1)%Z → (Qmax 1 (inject_Z z) == 1)%Q)).
  { intros z. split; intros Hz.
    - apply Q.max_r. change 1%Q with (inject_Z 1). now rewrite <- Zle_Qle.
    - apply Q.max_l. change 1%Q with (inject_Z 1). now rewrite <- Zle_Qle. }
  split; [apply Q.le_max_l |]. split; [| split].
  - destruct (Z_le_gt_dec 1 (default 0%Z parsed)) as [Hge | Hlt].
    + exists (default 0%Z parsed). split; [exact Hge |].
      now apply Hcases.
    + exists 1%Z. split; [lia |]. apply Hcases. lia.
  - intros ->. simpl. apply Hcases. lia.
  - intros z ->. simpl. apply Hcases.
Qed.

(** ** [DraggableLine] *)

Section Drag.

Local Open Scope Q_scope.

Lemma percent_within (n h : Q) :
  0 < h → 0 <= n → n <= h → within 0 100 (n / h * 100).
Proof.
  intros Hh Hn Hnh.
  assert (H0 : 0 <= n / h) by (apply Qle_shift_div_l; lra).
  assert (H1 : n / h <= 1) by (apply Qle_shift_div_r; lra).
  unfold within. lra.
Qed.

Lemma moved_within (clientY : Q) (parentRect : DraggableLine.DOMRect)
      (s : DraggableLine.t) :
  DraggableLine.isDragging s = true →
  0 < DraggableLine.height parentRect →
  within 0 100
    (DraggableLine.topPercent
       (DraggableLine.handleMouseMove clientY (Some parentRect) s)).
Proof.
  intros Hd Hh. unfold DraggableLine.handleMouseMove. rewrite Hd. simpl.
  unfold JS.max, JS.min. apply percent_within; [exact Hh | |].
  - apply Q.le_max_l.
  - apply Q.max_lub; [lra | apply Q.le_min_r].
Qed.

Lemma drag_step_within (e : DraggableLine.Pointer) (s : DraggableLine.t) :
  DraggableLine.laidOut e →
  within 0 100 (DraggableLine.topPercent s) →
  within 0 100 (DraggableLine.topPercent (DraggableLine.step e s)).
Proof.
  intros Hlaid Hs. destruct e as [[|] | clientY [parentRect |] |]; simpl;
    try exact Hs.
  - destruct (DraggableLine.isDragging s) eqn:Hd; [| exact Hs].
    now apply moved_within.
  - destruct (DraggableLine.isDragging s) eqn:Hd; [| exact Hs].
    unfold DraggableLine.handleMouseMove. now rewrite Hd.
  - now destruct (DraggableLine.isDragging s).
Qed.

End Drag.

(** X18.  A reference line cannot be dragged out of its container: while
    every parent rectangle met has a positive height, a line whose
    position is within 0 % and 100 % stays within 0 % and 100 % under any
    sequence of presses, moves and releases.  A move while dragging puts
    the line under the pointer when the pointer is inside the container,
    and on the nearer edge otherwise. *)
Theorem drag_stays_inside (es : list DraggableLine.Pointer)
        (s : DraggableLine.t) :
  Forall DraggableLine.laidOut es →
  within 0 100 (DraggableLine.topPercent s) →
  within 0 100 (DraggableLine.topPercent (DraggableLine.run es s))
  ∧ (∀ (clientY : Q) (r : DraggableLine.DOMRect) (d : DraggableLine.t),
       DraggableLine.isDragging d = true →
       (0 < DraggableLine.height r)%Q →
       let offset := (clientY - DraggableLine.top r)%Q in
       let moved :=
         DraggableLine.topPercent
           (DraggableLine.handleMouseMove clientY (Some r) d) in
       within 0 100 moved
       ∧ (within 0 (DraggableLine.height r) offset →
          (moved == offset / DraggableLine.height r * 100)%Q)
       ∧ ((offset <= 0)%Q → (moved == 0)%Q)
       ∧ ((DraggableLine.height r <= offset)%Q → (moved == 100)%Q)).
Proof.
  intros Hlaid Hs. split.
  - revert s Hs. induction Hlaid as [| e es He Hes IH]; intros s Hs;
      [exact Hs |].
    apply IH. now apply drag_step_within.
  - intros clientY r d Hd Hh offset moved.
    split; [now apply moved_within |].
    subst moved. unfold DraggableLine.handleMouseMove. rewrite Hd. simpl.
    fold offset. unfold JS.max, JS.min.
    split; [| split].
    + intros [H0 H1]. rewrite (Q.min_l offset _ H1).
      now rewrite (Q.max_r 0 offset H0).
    + intros H0.
      assert (E : (Qmax 0 (Qmin offset (DraggableLine.height r)) == 0)%Q).
      { apply Q.max_l. apply Qle_trans with offset; [apply Q.le_min_l | exact H0]. }
      rewrite E. unfold Qdiv. ring.
    + intros H1.
      assert (E : (Qmax 0 (Qmin offset (DraggableLine.height r))
                   == DraggableLine.height r)%Q).
      { rewrite (Q.min_r offset _ H1). apply Q.max_r. lra. }
      rewrite E. field. lra.
Qed.

Lemma drag_stays_inside_witness :
  Forall DraggableLine.laidOut
    [DraggableLine.Down false;
     DraggableLine.Move 700 (Some (DraggableLine.mkRect 100 400));
     DraggableLine.Up]
  ∧ within 0 100 (DraggableLine.topPercent (DraggableLine.init (Some 50%Q)))
  ∧ within 0 100
      (DraggableLine.topPercent
         (DraggableLine.run
            [DraggableLine.Down false;
             DraggableLine.Move 700 (Some (DraggableLine.mkRect 100 400));
             DraggableLine.Up]
            (DraggableLine.init (Some 50%Q)))).
Proof.
  assert (Hl : Forall DraggableLine.laidOut
                 [DraggableLine.Down false;
                  DraggableLine.Move 700
                    (Some (DraggableLine.mkRect 100 400));
                  DraggableLine.Up])
    by (repeat constructor).
  assert (Hs : within 0 100
                 (DraggableLine.topPercent (DraggableLine.init (Some 50%Q))))
    by (split; vm_compute; discriminate).
  split; [exact Hl | split; [exact Hs |]].
  exact (proj1 (drag_stays_inside _ _ Hl Hs)).
Defined.

(** X19.  A line moves only after a press outside its delete control:
    from a state that is not dragging, a sequence of pointer events without
    such a press (moves, releases, presses on the delete control) leaves
    the line where it was, not dragging. *)
Theorem no_press_no_move (es : list DraggableLine.Pointer)
        (s : DraggableLine.t) :
  DraggableLine.isDragging s = false →
  Forall (λ e, e ≠ DraggableLine.Down false) es →
  DraggableLine.run es s = s.
Proof.
  intros Hs Hes. revert s Hs.
  induction Hes as [| e es He Hes IH]; intros s Hs; [reflexivity |].
  change (DraggableLine.run (e :: es) s)
    with (DraggableLine.run es (DraggableLine.step e s)).
  assert (Hstep : DraggableLine.step e s = s).
  { destruct e as [[|] | clientY parent |]; simpl.
    - reflexivity.
    - congruence.
    - now rewrite Hs.
    - now rewrite Hs. }
  rewrite Hstep. now apply IH.
Qed.

Lemma no_press_no_move_witness :
  DraggableLine.isDragging (DraggableLine.init None) = false
  ∧ Forall (λ e, e ≠ DraggableLine.Down false)
      [DraggableLine.Move 700 (Some (DraggableLine.mkRect 100 400));
       DraggableLine.Down true; DraggableLine.Up]
  ∧ DraggableLine.run
      [DraggableLine.Move 700 (Some (DraggableLine.mkRect 100 400));
       DraggableLine.Down true; DraggableLine.Up]
      (DraggableLine.init None)
    = DraggableLine.init None.
Proof.
  assert (Hs : DraggableLine.isDragging (DraggableLine.init None) = false)
    by reflexivity.
  assert (Hes : Forall (λ e, e ≠ DraggableLine.Down false)
                  [DraggableLine.Move 700
                     (Some (DraggableLine.mkRect 100 400));
                   DraggableLine.Down true; DraggableLine.Up])
    by (repeat constructor; discriminate).
  split; [exact Hs | split; [exact Hes |]].
  exact (no_press_no_move _ _ Hs Hes).
Defined.

(** ** Adding a reference line *)

Lemma line_colour_cycle (n : nat) :
  nth (n mod 4) LINE_COLORS ""%string ∈ LINE_COLORS
  ∧ nth ((n + 1) mod 4) LINE_COLORS ""%string
    ≠ nth (n mod 4) LINE_COLORS ""%string.
Proof.
  replace ((n + 1) mod 4) with ((n mod 4 + 1) mod 4)
    by (rewrite Nat.Div0.add_mod_idemp_l; reflexivity).
  pose proof (Nat.mod_upper_bound n 4 ltac:(lia)) as Hlt.
  destruct (n mod 4) as [| [| [| [| k]]]]; [| | | | lia];
    (split; [unfold LINE_COLORS; simpl; set_solver | discriminate]).
Qed.

(** X20.  [addLine] appends one line and keeps the others.  With [n] lines
    present the new line is placed at [40 + 5 n] percent, which is within
    the container (0 % to 100 %) exactly when [n <= 12]: from the
    fourteenth line on, a new line starts out below the container.  Its
    colour is one of red, blue, green and yellow, and two lines added one
    after the other get different colours. *)
Theorem addLine_placement (newId nextId : string) (st : AppState) :
  let n := length (lines st) in
  ∃ line next : ReferenceLineData.t,
    lines (addLine newId st) = lines st ++ [line]
    ∧ lines (addLine nextId (addLine newId st)) = lines st ++ [line; next]
    ∧ ReferenceLineData.id line = newId
    ∧ (ReferenceLineData.topPercent line == 40 + 5 * inject_Z (Z.of_nat n))%Q
    ∧ (within 0 100 (ReferenceLineData.topPercent line) ↔ n ≤ 12)
    ∧ ReferenceLineData.color line ∈ LINE_COLORS
    ∧ ReferenceLineData.color next ≠ ReferenceLineData.color line.
Proof.
  intros n. unfold addLine. fields. rewrite length_app.
  change (length LINE_COLORS) with 4.
  change (length [_]) with 1. fold n.
  destruct (line_colour_cycle n) as [Hin Hne].
  eexists. eexists.
  split; [reflexivity |].
  split; [rewrite <- app_assoc; reflexivity |].
  cbn [ReferenceLineData.id ReferenceLineData.topPercent
       ReferenceLineData.color].
  split; [reflexivity |].
  split; [ring |]. split; [| split; [exact Hin | exact Hne]].
  unfold within. split.
  - intros [_ H].
    assert (Hn : (inject_Z (Z.of_nat n) <= inject_Z 12)%Q)
      by (change (inject_Z 12) with 12%Q; lra).
    rewrite <- Zle_Qle in Hn. lia.
  - intros Hn.
    assert (H0 : (inject_Z 0 <= inject_Z (Z.of_nat n))%Q)
      by (rewrite <- Zle_Qle; lia).
    assert (H1 : (inject_Z (Z.of_nat n) <= inject_Z 12)%Q)
      by (rewrite <- Zle_Qle; lia).
    change (inject_Z 0) with 0%Q in H0.
    change (inject_Z 12) with 12%Q in H1. lra.
Qed.

(** ** Start-up *)

(** X21.  What the first start makes of the storage.  With no user list in
    storage, a profile named "Guest" is created from the identifier and
    the clock reading drawn, becomes the only and the current user, and is
    written to storage.  With a user list in storage, that list is taken
    over, its first entry (if any) becomes the current user and storage is
    not written: a stored empty list leaves the application without a
    current user, and [saveResult] is then refused.  In both cases the
    history is the one found in storage, or empty. *)
Theorem boot_from_storage (guestId : string) (now : Z)
        (storage : gmap string Stored) :
  let st := boot guestId now storage in
  let guest := UserProfile.mk guestId "Guest" now in
  jumpHistory st = storedHistory storage
  ∧ (storedUsers storage = None →
     users st = [guest] ∧ currentUser st = Some guest
     ∧ storedUsers (localStorage st) = Some [guest]
     ∧ storedHistory (localStorage st) = storedHistory storage)
  ∧ (∀ us, storedUsers storage = Some us →
       users st = us ∧ currentUser st = head us
       ∧ localStorage st = storage)
  ∧ (storedUsers storage = Some [] →
     ∀ (newId : string) (now' : Z) (es : list Event),
       Forall (λ e, ∀ i n, e ≠ ECreateUser i n) es →
       saveResult newId now' (run es st) = run es st).
Proof.
  intros st guest. subst st guest.
  destruct (boot_cases guestId now storage)
    as [Hh [(us & Hs & Hu & Hc & Hl) | (Hs & Hu & Hc & Hl)]].
  - split; [exact Hh |]. split; [intros H; congruence |].
    split; [intros us' H; rewrite Hs in H; injection H as <-; auto |].
    intros Hempty newId now' es Hes.
    rewrite Hs in Hempty. injection Hempty as ->.
    apply saveResult_refused. right.
    assert (Hinv : users (run es (boot guestId now storage)) = []
                   ∧ currentUser (run es (boot guestId now storage)) = None).
    { revert Hu Hc. generalize (boot guestId now storage).
      induction Hes as [| e es He Hes IH]; intros s Hu Hc; [now split |].
      rewrite run_cons. apply IH.
      - destruct e; try (untouched users; exact Hu).
        match goal with
        | |- context [ECreateUser ?i ?n] => now destruct (He i n)
        end.
      - destruct e; try (untouched currentUser; exact Hc).
        + match goal with
          | |- context [ECreateUser ?i ?n] => now destruct (He i n)
          end.
        + cbn [step]. unfold clickUser. rewrite Hu.
          now rewrite lookup_nil. }
    apply Hinv.
  - split; [exact Hh |].
    split; [| split; [intros us H; congruence | intros H; congruence]].
    intros _. rewrite Hu, Hc, Hl.
    now rewrite storedUsers_insert_users, storedHistory_insert_users.
Qed.

Lemma boot_from_storage_witness :
  storedUsers (∅ : gmap string Stored) = None
  ∧ users demoBoot = [UserProfile.mk "k3x9q0a1z" "Guest" 1700000000000]
  ∧ currentUser demoBoot
    = Some (UserProfile.mk "k3x9q0a1z" "Guest" 1700000000000).
Proof.
  assert (H : storedUsers (∅ : gmap string Stored) = None)
    by (vm_compute; reflexivity).
  destruct (boot_from_storage "k3x9q0a1z" 1700000000000 ∅)
    as (_ & Hguest & _).
  destruct (Hguest H) as (Hu & Hc & _).
  exact (conj H (conj Hu Hc)).
Defined.

(** ** Deleting a reference line *)

(** X22.  A delete removes the line clicked and nothing else: from
    start-up on, after any sequence of events in which every identifier
    handed to [addLine] is new among the lines present, the line ids are
    pairwise distinct, so a click on the delete control of a line, offered
    when there is more than one line, leaves exactly one line fewer and
    keeps every other line. *)
Theorem clickDelete_removes_one (es : list Event) (guestId : string)
        (now : Z) (storage : gmap string Stored) :
  freshLineIds es (boot guestId now storage) →
  let st := run es (boot guestId now storage) in
  NoDup (lineIds st)
  ∧ (∀ line, line ∈ lines st → 1 < length (lines st) →
       let st' := clickDelete (ReferenceLineData.id line) st in
       S (length (lines st')) = length (lines st)
       ∧ (line ∉ lines st')
       ∧ (∀ other, other ∈ lines st → other ≠ line → other ∈ lines st')).
Proof.
  intros Hfresh st.
  assert (Hnd : NoDup (lineIds st)).
  { subst st. apply run_lines; [exact Hfresh |].
    unfold lineIds. rewrite boot_lines. simpl. split; [| lia].
    apply NoDup_singleton. }
  split; [exact Hnd |].
  intros line Hin Hlen st'. subst st'.
  unfold clickDelete, onDelete.
  apply Nat.ltb_lt in Hlen. rewrite Hlen. unfold removeLine. fields.
  split; [| split].
  - pose proof (filter_key_length ReferenceLineData.id
                  (ReferenceLineData.id line) (lines st) Hnd) as Hge.
    assert (Hnot : ¬ ReferenceLineData.id line ≠ ReferenceLineData.id line)
      by (intros H; now apply H).
    pose proof (length_filter_lt
                  (λ l, ReferenceLineData.id l ≠ ReferenceLineData.id line)
                  (lines st) line Hin Hnot) as Hlt.
    lia.
  - intros H. apply list_elem_of_filter in H as [H _]. now apply H.
  - intros other Ho Hne. apply list_elem_of_filter. split; [| exact Ho].
    intros Hid. apply Hne.
    unfold lineIds in Hnd.
    apply list_elem_of_lookup in Ho as [i Hi].
    apply list_elem_of_lookup in Hin as [j Hj].
    assert (i = j).
    { apply (NoDup_lookup _ i j (ReferenceLineData.id other) Hnd).
      - now rewrite list_lookup_fmap, Hi.
      - now rewrite list_lookup_fmap, Hj, Hid. }
    subst j. congruence.
Qed.

Lemma clickDelete_removes_one_witness :
  freshLineIds demoLineEvents demoBoot
  ∧ NoDup (lineIds (run demoLineEvents demoBoot)).
Proof.
  assert (Hfresh : freshLineIds demoLineEvents demoBoot).
  { simpl. repeat split; apply (bool_decide_unpack _); vm_compute; exact I. }
  split; [exact Hfresh |].
  exact (proj1 (clickDelete_removes_one demoLineEvents "k3x9q0a1z"
                  1700000000000 ∅ Hfresh)).
Defined.
